(** * Chat-with-PDF backend: chunker, embedding client and HTTP handlers

  A shallow embedding of [src/pinecone.js] (the fixed-window chunker,
  the embedding client and [processPdfAndStoreInPinecone]) and of the
  Express server (the [POST /upload/pdf] and [POST /query] handlers),
  with the properties of the specification stated against it. *)

From Stdlib Require Import ZArith Lia String Ascii DecimalString DecimalNat.
From Stdlib Require Import Floats.SpecFloat.
From stdpp Require Import base tactics option list gmap strings.

Local Open Scope Z_scope.

(* ===================================================================== *)
(** * 1. The text chunker ([chunkText], pinecone.js l.47-53)              *)
(* ===================================================================== *)

(** A JavaScript string is a sequence of code units; [text.length] and
  [text.slice] count code units.  The chunker never inspects a code
  unit, so it is embedded over a list of an arbitrary unit type [A].
  [chunkSize] and [overlap] are integer-valued numbers, embedded as [Z]. *)

Module Chunker.
Section WithUnit.
Context {A : Type}.

Local Abbreviation len text := (Z.of_nat (length text)) (only parsing).

(** Relative index of [String.prototype.slice]: a negative index counts
    from the end, and every index is clamped to [0, length]. *)
Definition relative_index (n k : Z) : Z :=
  if k <? 0 then Z.max (n + k) 0 else Z.min k n.

(** [text.slice(b, e)]. *)
Definition slice (text : list A) (b e : Z) : list A :=
  let from := relative_index (len text) b in
  let to := relative_index (len text) e in
  take (Z.to_nat (Z.max (to - from) 0)) (drop (Z.to_nat from) text).

(** The [for] loop of [chunkText]: state [(i, chunks)], guard
    [i < text.length], body [chunks.push(text.slice(i, i + chunkSize))],
    update [i += chunkSize - overlap].  The loop need not terminate, so
    the embedding takes fuel: [None] means the fuel ran out before the
    guard became false. *)
Fixpoint chunkLoop (fuel : nat) (text : list A) (chunkSize overlap : Z)
    (i : Z) (chunks : list (list A)) : option (list (list A)) :=
  match fuel with
  | O => None
  | S fuel' =>
      if i <? len text
      then chunkLoop fuel' text chunkSize overlap (i + (chunkSize - overlap))
             (chunks ++ [slice text i (i + chunkSize)])
      else Some chunks
  end.

(** [function chunkText(text, chunkSize, overlap)]. *)
Definition chunkText (fuel : nat) (text : list A) (chunkSize overlap : Z)
    : option (list (list A)) :=
  chunkLoop fuel text chunkSize overlap 0 [].

(** The call returns [chunks]: some amount of fuel is enough. *)
Definition returns (text : list A) (chunkSize overlap : Z)
    (chunks : list (list A)) : Prop :=
  exists fuel, chunkText fuel text chunkSize overlap = Some chunks.

(** ** The loop with the capacity of arrays

    [chunks.push] works on an array that holds a bounded number of
    elements: once the array is full, the push throws
    [RangeError: Invalid array length].  The bound depends on the engine
    and is a parameter, [capacity].  [chunkLoop] above is the loop as long
    as that bound is not reached. *)

(** How a call ends: with the chunks, or with the error of a push on a
    full array. *)
Inductive ending : Type :=
| Chunks (chunks : list (list A))
| InvalidArrayLength.

Fixpoint chunkLoop_bounded (capacity fuel : nat) (text : list A)
    (chunkSize overlap : Z) (i : Z) (chunks : list (list A)) : option ending :=
  match fuel with
  | O => None
  | S fuel' =>
      if i <? len text
      then if (length chunks <? capacity)%nat
           then chunkLoop_bounded capacity fuel' text chunkSize overlap
                  (i + (chunkSize - overlap))
                  (chunks ++ [slice text i (i + chunkSize)])
           else Some InvalidArrayLength
      else Some (Chunks chunks)
  end.



(** The default arguments [chunkSize = 500, overlap = 50]. *)
Definition default_chunkSize : Z := 500.
Definition default_overlap : Z := 50.

(** [chunkText(text)], as called by [processPdfAndStoreInPinecone]; the
    fuel [length text + 1] is shown below to be enough. *)
Definition chunkText_default (text : list A) : list (list A) :=
  default [] (chunkText (S (length text)) text default_chunkSize default_overlap).

(** ** Specification-side notions *)

(** Rejoining a chunk sequence: the first chunk, then every later chunk
    without its first [overlap] units. *)
Definition rejoin (overlap : nat) (chunks : list (list A)) : list A :=
  match chunks with
  | [] => []
  | c :: cs => c ++ concat (map (drop overlap) cs)
  end.

(** Ceiling of the quotient [a / b]. *)
Definition ceil_div (a b : Z) : Z := - ((- a) / b).

(** The chunk count the specification announces. *)
Definition spec_chunk_count (n chunkSize overlap : Z) : Z :=
  ceil_div (n - overlap) (chunkSize - overlap).

(** The number of iterations the loop runs from index 0. *)
Definition loop_chunk_count (n chunkSize overlap : Z) : Z :=
  ceil_div n (chunkSize - overlap).

(** The first [n] windows starting at index [i]. *)
Fixpoint windows (n : nat) (text : list A) (chunkSize overlap i : Z)
    : list (list A) :=
  match n with
  | O => []
  | S n' => slice text i (i + chunkSize)
            :: windows n' text chunkSize overlap (i + (chunkSize - overlap))
  end.

End WithUnit.

(** The code units of a string literal, and the example text of the
    specification. *)
Definition units (s : string) : list ascii := list_ascii_of_string s.

Definition example_text : list ascii := units "ABCDEFGHIJ".

End Chunker.

(* ===================================================================== *)
(** * 2. JavaScript values                                                *)
(* ===================================================================== *)

(** The strings of the handlers are Rocq strings, one character for one
    code unit below 256; the two pictographs of the console lines of
    pinecone.js are kept as their UTF-8 bytes. *)

Module JS.

Set Warnings "-register-all".

(** JSON-like values: the request body, the payload of a remote reply and
    the metadata of a stored document.  A number is an IEEE-754 double. *)
Inductive value : Type :=
| VUndefined
| VNull
| VBool (b : bool)
| VNum (x : spec_float)
| VStr (s : string)
| VArr (items : list value)
| VObj (fields : gmap string value).

(** A thrown [Error] object. *)
Record error : Type := Error { message : string; stack : string }.

(** How an evaluation ends: with a value, or with a thrown error (for an
    [async] function: a resolved or a rejected promise). *)
Inductive outcome (A : Type) : Type :=
| Returned (a : A)
| Thrown (e : error).
Arguments Returned {A} a.
Arguments Thrown {A} e.

(** [ToBoolean]: [undefined], [null], [false], [0], [NaN] and the empty
    string are falsy; every object and array is truthy. *)
Definition truthy (v : value) : bool :=
  match v with
  | VUndefined | VNull => false
  | VBool b => b
  | VNum (S754_zero _) | VNum S754_nan => false
  | VNum _ => true
  | VStr EmptyString => false
  | VStr _ => true
  | VArr _ | VObj _ => true
  end.

(** [a || b]. *)
Definition or_else (a b : value) : value := if truthy a then a else b.

Definition nullish (v : value) : bool :=
  match v with VUndefined | VNull => true | _ => false end.

Definition LF : ascii := "010"%char.
Definition dquote : ascii := "034"%char.
Definition backslash : ascii := "092"%char.

Definition char (c : ascii) : string := String c EmptyString.

(** Decimal digits of a non-negative integer, as a template literal
    prints an integer-valued number. *)
Definition nat_to_string (n : nat) : string :=
  NilEmpty.string_of_uint (Nat.to_uint n).

Definition N_to_string (n : N) : string :=
  NilEmpty.string_of_uint (N.to_uint n).

(** [xs.join(sep)] on strings. *)
Definition join (sep : string) (xs : list string) : string :=
  String.concat sep xs.

Definition hex_digit (n : nat) : ascii :=
  match n with
  | 0 => "0" | 1 => "1" | 2 => "2" | 3 => "3" | 4 => "4" | 5 => "5"
  | 6 => "6" | 7 => "7" | 8 => "8" | 9 => "9" | 10 => "a" | 11 => "b"
  | 12 => "c" | 13 => "d" | 14 => "e" | _ => "f"
  end%nat%char.

(** [JSON.stringify] on one code unit of a string: the quote, the
    backslash and the control characters are escaped. *)
Definition json_escape (c : ascii) : string :=
  let n := nat_of_ascii c in
  if (n =? 34)%nat then String backslash (char dquote)
  else if (n =? 92)%nat then String backslash (char backslash)
  else if (n =? 8)%nat then String backslash "b"
  else if (n =? 12)%nat then String backslash "f"
  else if (n =? 10)%nat then String backslash "n"
  else if (n =? 13)%nat then String backslash "r"
  else if (n =? 9)%nat then String backslash "t"
  else if (n <? 32)%nat
       then String backslash
              ("u00" ++ String (hex_digit (n / 16)) (char (hex_digit (n mod 16))))
  else char c.

(** [JSON.stringify(s)] for a string [s]. *)
Definition JSON_stringify (s : string) : string :=
  String dquote
    (String.concat EmptyString (List.map json_escape (list_ascii_of_string s))
     ++ char dquote).

End JS.

(* ===================================================================== *)
(** * 3. The world the server runs in                                     *)
(* ===================================================================== *)

Module World.
Import JS.

(** A LangChain document. *)
Record Doc : Type := { pageContent : string; metadata : value }.

(** The store handle built by [PineconeStore.fromExistingIndex]. *)
Record VectorStore : Type := { vs_index : string; vs_namespace : string }.

(** One message of a chat-completion request, and the request. *)
Record ChatMessage : Type := { role : string; content : value }.

Record ChatRequest : Type := {
  messages : list ChatMessage;
  model : string;
  temperature : spec_float;
  max_tokens : nat
}.

(** A record upserted by [processPdfAndStoreInPinecone]. *)
Record Vector : Type := {
  vec_id : string;
  vec_values : value;
  vec_metadata_text : string
}.

(** Everything a handler does outside its own variables, with the way the
    call ended.  The list of events so far is the history. *)
Inductive event : Type :=
| EPdfLoad (path : string) (r : outcome (list Doc))
| ESplitDocuments (docs : list Doc) (r : outcome (list Doc))
| EUuid (namespace : string)
| EFromExistingIndex (index namespace : string) (r : option error)
| EAddDocuments (store : VectorStore) (batch : list Doc) (r : option error)
| EUnlink (path : string) (r : option error)
| ESimilaritySearch (store : VectorStore) (query : value) (k : nat)
    (r : outcome (list Doc))
| EChatCompletion (request : ChatRequest) (r : outcome value)
| EReadFile (path : string) (r : outcome string)
| EPdfParse (buffer : string) (r : outcome string)
| EAxiosPost (url inputs authorization : string) (r : outcome value)
| EDateNow (ms : N)
| EIndexUpsert (vectors : list Vector) (r : option error)
| EConsoleLog (line : string)
| EConsoleError (label : string) (e : error).

(** The error a call ended with, if it failed. *)
Definition event_error (ev : event) : option error :=
  match ev with
  | EPdfLoad _ (Thrown e) | ESplitDocuments _ (Thrown e)
  | ESimilaritySearch _ _ _ (Thrown e) | EChatCompletion _ (Thrown e)
  | EReadFile _ (Thrown e) | EPdfParse _ (Thrown e)
  | EAxiosPost _ _ _ (Thrown e) => Some e
  | EFromExistingIndex _ _ r | EAddDocuments _ _ r | EUnlink _ r
  | EIndexUpsert _ r => r
  | _ => None
  end.

Definition is_unlink (ev : event) : bool :=
  match ev with EUnlink _ _ => true | _ => false end.

(** The environment: process configuration, the libraries and the remote
    services.  A service answers as a function of the history and of the
    arguments of the call, so it may answer differently each time. *)
Record Env : Type := {
  PINECONE_INDEX_NAME : option string;
  NODE_ENV : option string;
  HF_API_KEY : option string;
  (* the runtime *)
  type_error : value -> string -> error;
  number_to_string : spec_float -> string;
  enoent : string -> error;
  uuid : nat -> string;
  now : list event -> N;
  (* the libraries and services *)
  pdf_load : list event -> string -> outcome (list Doc);
  split_documents : list event -> list Doc -> outcome (list Doc);
  from_existing_index : list event -> string -> string -> option error;
  add_documents : list event -> VectorStore -> list Doc -> option error;
  unlink_error : list event -> string -> option error;
  similarity_search :
    list event -> VectorStore -> value -> nat -> outcome (list Doc);
  chat_completion : list event -> ChatRequest -> outcome value;
  pdf_parse : list event -> string -> outcome string;
  axios_post : list event -> string -> string -> string -> outcome value;
  index_upsert : list event -> list Vector -> option error
}.

(** The state: the files on disk with their contents, the [namespace]
    property of every session, the number of identifiers [uuidv4] has
    produced, and the history. *)
Record World : Type := {
  files : gmap string string;
  sessions : gmap string string;
  uuids_drawn : nat;
  trace : list event
}.

(** An HTTP request after the middlewares ran: its session, the file
    [multer] stored (if the form had one) and the parsed body. *)
Record File : Type := { path : string; originalname : string }.

Record Request : Type := {
  session_id : string;
  file : option File;
  body : value
}.

(** The JSON bodies the handlers send. *)
Inductive Body : Type :=
| BStatus (status : string)
| BError (error : string)
| BUploaded (message namespace : string) (chunkCount originalPageCount : nat)
| BUploadFailed (error details : string) (stack : option string)
| BAnswer (answer : value) (sources : list (string * value))
| BQueryFailed (error : string) (details : option string).

Record Response : Type := { status : nat; json : Body }.

(** ** The monad of handlers: state and exceptions *)

Definition M (A : Type) : Type := World -> outcome A * World.

Definition ret {A} (a : A) : M A := fun w => (Returned a, w).

Definition throw {A} (e : error) : M A := fun w => (Thrown e, w).

Definition bind {A B} (m : M A) (k : A -> M B) : M B :=
  fun w =>
    match m w with
    | (Returned a, w') => k a w'
    | (Thrown e, w') => (Thrown e, w')
    end.

(** [try { m } catch (error) { handler error }]. *)
Definition try_catch {A} (m : M A) (handler : error -> M A) : M A :=
  fun w =>
    match m w with
    | (Returned a, w') => (Returned a, w')
    | (Thrown e, w') => handler e w'
    end.

Definition record (ev : event) (w : World) : World :=
  {| files := files w; sessions := sessions w;
     uuids_drawn := uuids_drawn w; trace := trace w ++ [ev] |}.

(** A call whose result is a value or an error. *)
Definition call {A} (answer : list event -> outcome A)
    (ev : outcome A -> event) : M A :=
  fun w => let r := answer (trace w) in (r, record (ev r) w).

(** A call that returns nothing, or fails. *)
Definition call_unit (answer : list event -> option error)
    (ev : option error -> event) : M unit :=
  fun w =>
    let r := answer (trace w) in
    (match r with Some e => Thrown e | None => Returned tt end, record (ev r) w).

(** The events a run added to the history. *)
Definition emitted (w w' : World) : list event :=
  drop (length (trace w)) (trace w').

Notation "'let*' x ':=' m 'in' k" := (bind m (fun x => k))
  (at level 10, x name, m at level 100, k at level 200).
Notation "m ';;' k" := (bind m (fun _ => k))
  (at level 100, k at level 200, right associativity).

End World.

(* ===================================================================== *)
(** * 4. The embedding client and the handlers                            *)
(* ===================================================================== *)

Module Server.
Import JS World.
Local Open Scope string_scope.
Local Open Scope nat_scope.

Section WithEnv.
Context (env : Env).

(** ** Property access *)

(** [v.key] for a key that no prototype defines ([question], [embedding],
    [choices], [message], [content], [source]): a [TypeError] on
    [undefined] and [null], the own property of an object, and
    [undefined] on every other value. *)
Definition get (v : value) (key : string) : M value :=
  match v with
  | VUndefined | VNull => throw (type_error env v key)
  | VObj fields => ret (default VUndefined (fields !! key))
  | _ => ret VUndefined
  end.

(** [v?.key]. *)
Definition get_opt (v : value) (key : string) : M value :=
  if nullish v then ret VUndefined else get v key.

(** [v[0]]. *)
Definition at0 (v : value) : M value :=
  match v with
  | VUndefined | VNull => throw (type_error env v "0")
  | VArr items => ret (default VUndefined (head items))
  | VObj fields => ret (default VUndefined (fields !! "0"))
  | VStr (String c _) => ret (VStr (char c))
  | _ => ret VUndefined
  end.

(** [ToString], as a template literal applies it. *)
Fixpoint to_string (v : value) : string :=
  match v with
  | VUndefined => "undefined"
  | VNull => "null"
  | VBool true => "true"
  | VBool false => "false"
  | VNum x => number_to_string env x
  | VStr s => s
  | VArr items =>
      join ","
        (List.map (fun x => if nullish x then EmptyString else to_string x) items)
  | VObj _ => "[object Object]"
  end.

(** ** Primitive effects *)

Definition console_log (line : string) : M unit :=
  fun w => (Returned tt, record (EConsoleLog line) w).

Definition console_error (label : string) (e : error) : M unit :=
  fun w => (Returned tt, record (EConsoleError label e) w).

(** [uuidv4()]: the next identifier of the generator. *)
Definition uuidv4 : M string :=
  fun w =>
    let namespace := uuid env (uuids_drawn w) in
    (Returned namespace,
     {| files := files w; sessions := sessions w;
        uuids_drawn := S (uuids_drawn w);
        trace := trace w ++ [EUuid namespace] |}).

(** [req.session.namespace = namespace]. *)
Definition set_session_namespace (sid namespace : string) : M unit :=
  fun w =>
    (Returned tt,
     {| files := files w; sessions := <[sid := namespace]> (sessions w);
        uuids_drawn := uuids_drawn w; trace := trace w |}).

(** [fs.unlinkSync(path)]: fails when there is no such file, or when the
    system refuses the deletion; otherwise the file is gone. *)
Definition unlinkSync (p : string) : M unit :=
  fun w =>
    match files w !! p with
    | None =>
        let e := enoent env p in (Thrown e, record (EUnlink p (Some e)) w)
    | Some _ =>
        match unlink_error env (trace w) p with
        | Some e => (Thrown e, record (EUnlink p (Some e)) w)
        | None =>
            (Returned tt,
             record (EUnlink p None)
               {| files := delete p (files w); sessions := sessions w;
                  uuids_drawn := uuids_drawn w; trace := trace w |})
        end
    end.

(** [fs.readFileSync(path)]. *)
Definition readFileSync (p : string) : M string :=
  fun w =>
    let r := match files w !! p with
             | Some contents => Returned contents
             | None => Thrown (enoent env p)
             end in
    (r, record (EReadFile p r) w).

(** [process.env.PINECONE_INDEX_NAME || "pdf-chat"]. *)
Definition index_name : string :=
  match PINECONE_INDEX_NAME env with
  | Some (String c s) => String c s
  | _ => "pdf-chat"
  end.

(** [process.env.NODE_ENV === 'development']. *)
Definition development : bool :=
  match NODE_ENV env with
  | Some s => String.eqb s "development"
  | None => false
  end.

(** ** pinecone.js: the embedding client *)

Definition HF_API_URL : string := "h".

(** The header [`Bearer ${process.env.HF_API_KEY}`]. *)
Definition authorization : string :=
  "Bearer " ++ match HF_API_KEY env with Some k => k | None => "undefined" end.

(** [getEmbedding(text)]: [response.data.embedding || response.data[0]]. *)
Definition getEmbedding (text : string) : M value :=
  let* data := call (fun h => axios_post env h HF_API_URL text authorization)
                    (EAxiosPost HF_API_URL text authorization) in
  let* embedding := get data "embedding" in
  if truthy embedding then ret embedding else at0 data.

(** ** pinecone.js: [processPdfAndStoreInPinecone] *)

(** The loop [for (let i = 0; i < chunks.length; i++)] over the chunks
    that remain, [i] being the index of the first of them. *)
Fixpoint embed_chunks (chunks : list string) (i : nat) (vectors : list Vector)
    : M (list Vector) :=
  match chunks with
  | [] => ret vectors
  | chunk :: rest =>
      let* embedding := getEmbedding chunk in
      let* ms := (fun w => let t := now env (trace w) in
                           (Returned t, record (EDateNow t) w)) in
      embed_chunks rest (S i)
        (vectors ++ [{| vec_id := "chunk-" ++ N_to_string ms ++ "-" ++ nat_to_string i;
                        vec_values := embedding;
                        vec_metadata_text := chunk |}])
  end.

Definition processPdfAndStoreInPinecone (filePath : string) : M unit :=
  try_catch
    (let* buffer := readFileSync filePath in
     let* text := call (fun h => pdf_parse env h buffer) (EPdfParse buffer) in
     let chunks :=
       List.map string_of_list_ascii
         (Chunker.chunkText_default (list_ascii_of_string text)) in
     let* vectors := embed_chunks chunks 0 [] in
     call_unit (fun h => index_upsert env h vectors) (EIndexUpsert vectors) ;;
     console_log "✅ Successfully uploaded to Pinecone.")
    (fun err =>
       console_error "❌ Error processing PDF:" err ;;
       throw err).

(** ** The server: [POST /upload/pdf] *)

Definition batchSize : nat := 100.

(** The loop [for (let i = 0; i < docs.length; i += batchSize)].  Every
    iteration moves [i] forward by 100, so [length docs] iterations are
    never exceeded; that number is the fuel. *)
Fixpoint add_batches (fuel : nat) (store : VectorStore) (docs : list Doc)
    (i : nat) : M unit :=
  match fuel with
  | O => ret tt
  | S fuel' =>
      if i <? length docs then
        let batch := take batchSize (drop i docs) in
        call_unit (fun h => add_documents env h store batch)
                  (EAddDocuments store batch) ;;
        console_log ("Processed batch " ++ nat_to_string (i / batchSize + 1)
                     ++ "/" ++ nat_to_string ((length docs + (batchSize - 1)) / batchSize)) ;;
        add_batches fuel' store docs (i + batchSize)
      else ret tt
  end.

Definition respond (code : nat) (b : Body) : Response :=
  {| status := code; json := b |}.

Definition upload_pdf (req : Request) : M Response :=
  try_catch
    (match file req with
     | None => ret (respond 400 (BError "No file uploaded"))
     | Some f =>
         let filePath := path f in
         let* rawDocs := call (fun h => pdf_load env h filePath)
                              (EPdfLoad filePath) in
         let* docs := call (fun h => split_documents env h rawDocs)
                           (ESplitDocuments rawDocs) in
         let pineconeIndex := index_name in
         let* namespace := uuidv4 in
         set_session_namespace (session_id req) namespace ;;
         call_unit (fun h => from_existing_index env h pineconeIndex namespace)
                   (EFromExistingIndex pineconeIndex namespace) ;;
         let vectorStore :=
           {| vs_index := pineconeIndex; vs_namespace := namespace |} in
         add_batches (length docs) vectorStore docs 0 ;;
         unlinkSync filePath ;;
         ret (respond 200
                (BUploaded "PDF processed and stored successfully" namespace
                   (length docs) (length rawDocs)))
     end)
    (fun error =>
       console_error "Error processing PDF:" error ;;
       match file req with
       | Some {| path := String c p |} => unlinkSync (String c p)
       | _ => ret tt
       end ;;
       ret (respond 500
              (BUploadFailed "Failed to process PDF" (message error)
                 (if development then Some (stack error) else None)))).

(** ** The server: [POST /query] *)

Definition query_namespace : string := "6763088c-17a1-433d-9f7f-066974723312".

(** One element of [results.map((doc, i) => ...)]. *)
Definition context_entry (i : nat) (doc : Doc) : M string :=
  let* source := get (metadata doc) "source" in
  ret ("[Context " ++ nat_to_string (i + 1) ++ "]: " ++ pageContent doc
       ++ char LF ++ "Source: " ++ to_string (or_else source (VStr "PDF"))).

Fixpoint context_entries (i : nat) (results : list Doc) : M (list string) :=
  match results with
  | [] => ret []
  | doc :: rest =>
      let* entry := context_entry i doc in
      let* entries := context_entries (S i) rest in
      ret (entry :: entries)
  end.

Definition SYSTEM_PROMPT (context : string) : string :=
  join (char LF)
    [ EmptyString;
      "    You are an AI assistant that answers questions based on the provided context from PDF documents.";
      "    - Always stay truthful to the context";
      "    - If you don't know, say you don't know";
      "    - Keep answers concise and accurate";
      "    - give all the details (can give in paragraph) ";
      "    ";
      "    Context:";
      "     " ++ JSON_stringify context;
      "    " ].

(** The double nearest to 0.3. *)
Definition temperature_0_3 : spec_float :=
  S754_finite false 5404319552844595 (-54).

Definition chat_request (context : string) (question : value) : ChatRequest :=
  {| messages := [ {| role := "system"; content := VStr (SYSTEM_PROMPT context) |};
                   {| role := "user"; content := question |} ];
     model := "llama-3.3-70b-versatile";
     temperature := temperature_0_3;
     max_tokens := 1024 |}.

(** [chatCompletion.choices[0]?.message?.content]. *)
Definition answer_of (chatCompletion : value) : M value :=
  let* choices := get chatCompletion "choices" in
  let* first := at0 choices in
  let* msg := get_opt first "message" in
  get_opt msg "content".

Definition query (req : Request) : M Response :=
  try_catch
    (let namespace := query_namespace in
     let* question := get (body req) "question" in
     if negb (truthy question)
     then ret (respond 400 (BError "Question is required"))
     else
       let pineconeIndex := index_name in
       call_unit (fun h => from_existing_index env h pineconeIndex namespace)
                 (EFromExistingIndex pineconeIndex namespace) ;;
       let vectorStore :=
         {| vs_index := pineconeIndex; vs_namespace := namespace |} in
       let* results := call (fun h => similarity_search env h vectorStore question 5)
                            (ESimilaritySearch vectorStore question 5) in
       let* entries := context_entries 0 results in
       let context := join (String LF (char LF)) entries in
       let request := chat_request context question in
       let* chatCompletion := call (fun h => chat_completion env h request)
                                   (EChatCompletion request) in
       let* answer := answer_of chatCompletion in
       ret (respond 200
              (BAnswer answer
                 (List.map (fun doc => (pageContent doc, metadata doc)) results))))
    (fun error =>
       console_error "Error querying:" error ;;
       ret (respond 500
              (BQueryFailed "Failed to process query"
                 (if development then Some (message error) else None)))).

(** ** The server as a whole *)

Inductive HttpRequest : Type :=
| GetRoot
| PostUploadPdf (req : Request)
| PostQuery (req : Request).

Definition handle (r : HttpRequest) : M Response :=
  match r with
  | GetRoot => ret (respond 200 (BStatus "All Good!"))
  | PostUploadPdf req => upload_pdf req
  | PostQuery req => query req
  end.

(** Requests handled one after the other; for each, how its handler ended
    and the events it added. *)
Fixpoint serve (reqs : list HttpRequest) (w : World)
    : list (outcome Response * list event) * World :=
  match reqs with
  | [] => ([], w)
  | r :: rest =>
      let '(o, w') := handle r w in
      let '(os, w'') := serve rest w' in
      ((o, emitted w w') :: os, w'')
  end.

End WithEnv.
End Server.

(* ===================================================================== *)
(** * 5. Observing a run                                                  *)
(* ===================================================================== *)

Module Logic.
Import JS World Server.
Local Open Scope nat_scope.

(** A computation that only reads: it ends the same way in every world
    and leaves the world as it is. *)
Definition reads_only {A} (m : M A) : Prop :=
  exists r, forall w, m w = (r, w).

(** [post m Q w]: running [m] from [w] ends in a result and a world that
    satisfy [Q]. *)
Definition post {A} (m : M A) (Q : outcome A -> World -> Prop) (w : World)
    : Prop :=
  Q (m w).1 (m w).2.

(** A computation that deletes and creates no file. *)
Definition keeps_files {A} (m : M A) : Prop :=
  forall w, files (m w).2 = files w.

(** The namespaces an invocation mints, opens a store on and adds
    documents under. *)
Definition event_namespaces (ev : event) : list string :=
  match ev with
  | EUuid namespace => [namespace]
  | EFromExistingIndex _ namespace _ => [namespace]
  | EAddDocuments store _ _ => [vs_namespace store]
  | _ => []
  end.

Definition namespaces_used (evs : list event) : list string :=
  concat (map event_namespaces evs).

(** The events of the batching loop on [store]. *)
Definition batch_event (store : VectorStore) (ev : event) : Prop :=
  match ev with
  | EAddDocuments s _ _ => s = store
  | EConsoleLog _ => True
  | _ => False
  end.

(** [w'] is [w] some events later, with the same files, sessions and
    identifier count. *)
Definition later (w w' : World) (evs : list event) : Prop :=
  files w' = files w /\ sessions w' = sessions w
  /\ uuids_drawn w' = uuids_drawn w /\ trace w' = trace w ++ evs.

(** What one upload does with namespaces: it draws at most one identifier,
    every namespace it opens a store on or adds documents under is the
    identifier it has drawn, and so is the namespace it returns. *)
Definition minted_only (env : Env) (w : World) (o : outcome Response)
    (w' : World) : Prop :=
  exists evs,
    trace w' = trace w ++ evs
    /\ uuids_drawn w <= uuids_drawn w'
    /\ (forall ns, ns ∈ namespaces_used evs ->
          ns = uuid env (uuids_drawn w) /\ uuids_drawn w' = S (uuids_drawn w))
    /\ (forall m ns c p,
          o = Returned (respond 200 (BUploaded m ns c p)) ->
          ns ∈ namespaces_used evs).

(** The batches handed to [addDocuments], in the order of the calls. *)
Definition event_batch (ev : event) : list (list Doc) :=
  match ev with
  | EAddDocuments _ batch _ => [batch]
  | _ => []
  end.

Definition batches_sent (evs : list event) : list (list Doc) :=
  concat (map event_batch evs).

(** The events of the embedding loop of [processPdfAndStoreInPinecone]. *)
Definition embedding_event (ev : event) : Prop :=
  match ev with
  | EAxiosPost _ _ _ _ | EDateNow _ => True
  | _ => False
  end.

(** The identifier [`chunk-${ms}-${i}`] of a vector. *)
Definition chunk_id (ms : N) (i : nat) : string :=
  ("chunk-" ++ N_to_string ms ++ "-" ++ nat_to_string i)%string.


(** What [getEmbedding] makes of a payload that is not [null]:
    [data.embedding || data[0]]. *)
Definition payload_vector (data : value) : value :=
  match data with
  | VObj fields =>
      or_else (default VUndefined (fields !! "embedding"%string))
        (default VUndefined (fields !! "0"%string))
  | VArr items => default VUndefined (head items)
  | VStr (String c _) => VStr (char c)
  | _ => VUndefined
  end.

(** The embedding requests of a run, in order: the input of each and the
    way it ended. *)
Definition event_post (ev : event) : list (string * outcome value) :=
  match ev with
  | EAxiosPost _ inputs _ r => [(inputs, r)]
  | _ => []
  end.

Definition posts_sent (evs : list event) : list (string * outcome value) :=
  concat (map event_post evs).

End Logic.

(* ===================================================================== *)
(** * 6. Concrete environments and requests                               *)
(* ===================================================================== *)

Module Scenario.
Import JS World Server.
Local Open Scope string_scope.

Definition failure (msg : string) : error :=
  {| message := msg; stack := "Error: " ++ msg |}.

(** An environment in which the calls answer as given, whatever the
    history; the identifier generator counts. *)
Definition environment (loaded : outcome (list Doc)) (unlinked : option error)
    (posted : outcome value) (found : outcome (list Doc))
    (completed : outcome value) : Env :=
  {| PINECONE_INDEX_NAME := None;
     NODE_ENV := None;
     HF_API_KEY := Some "key";
     type_error := fun _ key => failure ("Cannot read properties (reading " ++ key ++ ")");
     number_to_string := fun _ => "NaN";
     enoent := fun p => failure ("ENOENT: no such file or directory, " ++ p);
     uuid := nat_to_string;
     now := fun _ => 0%N;
     pdf_load := fun _ _ => loaded;
     split_documents := fun _ docs => Returned docs;
     from_existing_index := fun _ _ _ => None;
     add_documents := fun _ _ _ => None;
     unlink_error := fun _ _ => unlinked;
     similarity_search := fun _ _ _ _ => found;
     chat_completion := fun _ _ => completed;
     pdf_parse := fun _ _ => Returned "ABCDEFGHIJ";
     axios_post := fun _ _ _ _ => posted;
     index_upsert := fun _ _ => None |}.

Definition page : Doc :=
  {| pageContent := "Hello"; metadata := VObj {[ "source" := VStr "a.pdf" ]} |}.

Definition completion (text : string) : value :=
  VObj {[ "choices" :=
            VArr [VObj {[ "message" := VObj {[ "content" := VStr text ]} ]}] ]}.

(** Every service answers. *)
Definition healthy : Env :=
  environment (Returned [page]) None (Returned (VObj {[ "embedding" := VArr [VNum (S754_zero false)] ]}))
    (Returned []) (Returned (completion "I don't know")).

(** The parser fails and the file cannot be deleted. *)
Definition parser_and_disk_fail : Env :=
  environment (Thrown (failure "bad PDF")) (Some (failure "EPERM"))
    (Returned VNull) (Returned []) (Returned VNull).

(** Every service answers, and the file cannot be deleted. *)
Definition disk_fails : Env :=
  environment (Returned [page]) (Some (failure "EPERM"))
    (Returned VNull) (Returned []) (Returned VNull).

(** The embedding service answers with an object without a vector. *)
Definition no_vector : Env :=
  environment (Returned [page]) None (Returned (VObj ∅))
    (Returned []) (Returned VNull).

(** The embedding service answers with an empty vector. *)
Definition empty_vector : Env :=
  environment (Returned [page]) None
    (Returned (VObj {[ "embedding" := VArr [] ]}))
    (Returned []) (Returned VNull).

(** A stored document without metadata, and an environment whose search
    returns it. *)
Definition orphan : Doc := {| pageContent := "Hello"; metadata := VNull |}.

Definition finds_orphan : Env :=
  environment (Returned [page]) None (Returned VNull)
    (Returned [orphan]) (Returned (completion "I don't know")).

Definition stored : File :=
  {| path := "upload/1-a.pdf"; originalname := "a.pdf" |}.

(** A server that has just received one file. *)
Definition fresh : World :=
  {| files := {[ "upload/1-a.pdf" := "%PDF" ]};
     sessions := ∅; uuids_drawn := 0; trace := [] |}.

Definition second : File :=
  {| path := "upload/2-b.pdf"; originalname := "b.pdf" |}.

(** A server that has received two files. *)
Definition two_files : World :=
  {| files := {[ "upload/1-a.pdf" := "%PDF"; "upload/2-b.pdf" := "%PDF" ]};
     sessions := ∅; uuids_drawn := 0; trace := [] |}.

Definition second_upload_request : Request :=
  {| session_id := "s2"; file := Some second; body := VUndefined |}.

Definition upload_request : Request :=
  {| session_id := "s1"; file := Some stored; body := VUndefined |}.


Definition question_request (question : string) : Request :=
  {| session_id := "s1"; file := None;
     body := VObj {[ "question" := VStr question ]} |}.


(** The environment [e] with another text behind every PDF. *)
Definition with_text (text : string) (e : Env) : Env :=
  {| PINECONE_INDEX_NAME := PINECONE_INDEX_NAME e;
     NODE_ENV := NODE_ENV e;
     HF_API_KEY := HF_API_KEY e;
     type_error := type_error e;
     number_to_string := number_to_string e;
     enoent := enoent e;
     uuid := uuid e;
     now := now e;
     pdf_load := pdf_load e;
     split_documents := split_documents e;
     from_existing_index := from_existing_index e;
     add_documents := add_documents e;
     unlink_error := unlink_error e;
     similarity_search := similarity_search e;
     chat_completion := chat_completion e;
     pdf_parse := fun _ _ => Returned text;
     axios_post := axios_post e;
     index_upsert := index_upsert e |}.

(** The environment [e] with another splitter. *)
Definition with_splitter (split : list Doc -> list Doc) (e : Env) : Env :=
  {| PINECONE_INDEX_NAME := PINECONE_INDEX_NAME e;
     NODE_ENV := NODE_ENV e;
     HF_API_KEY := HF_API_KEY e;
     type_error := type_error e;
     number_to_string := number_to_string e;
     enoent := enoent e;
     uuid := uuid e;
     now := now e;
     pdf_load := pdf_load e;
     split_documents := fun _ docs => Returned (split docs);
     from_existing_index := from_existing_index e;
     add_documents := add_documents e;
     unlink_error := unlink_error e;
     similarity_search := similarity_search e;
     chat_completion := chat_completion e;
     pdf_parse := pdf_parse e;
     axios_post := axios_post e;
     index_upsert := index_upsert e |}.

(** A PDF whose text has 600 code units: two chunks with the default
    arguments. *)
Definition long_text : string := string_of_list_ascii (repeat "a"%char 600).

Definition long_pdf : Env := with_text long_text healthy.

(** A PDF of two pages that the splitter cuts into three documents. *)
Definition two_pages : Env :=
  with_splitter (fun docs => page :: docs)
    (environment (Returned [page; page]) None (Returned VNull)
       (Returned []) (Returned VNull)).

End Scenario.

(* ===================================================================== *)
(** * 7. Properties of the chunker                                        *)
(* ===================================================================== *)

Module ChunkerFacts.
Import Chunker.
Section WithUnit.
Context {A : Type}.
Local Abbreviation len text := (Z.of_nat (length text)) (only parsing).

(** ** Arithmetic of the loop *)

Lemma ceil_div_nonpos a b : 0 < b -> a <= 0 -> ceil_div a b <= 0.
Proof.
  intros Hb Ha. unfold ceil_div.
  assert (0 <= (- a) / b) by (apply Z.div_pos; lia). lia.
Qed.

Lemma ceil_div_pos a b : 0 < b -> 0 < a -> 0 < ceil_div a b.
Proof.
  intros Hb Ha. unfold ceil_div.
  assert ((- a) / b < 0) by (apply Z.div_lt_upper_bound; lia). lia.
Qed.

Lemma ceil_div_step a b : 0 < b -> ceil_div a b = 1 + ceil_div (a - b) b.
Proof.
  intros Hb. unfold ceil_div.
  replace (- (a - b)) with (- a + 1 * b) by lia.
  rewrite Z.div_add by lia. lia.
Qed.

Lemma ceil_div_le a b : 0 < b -> 0 <= a -> ceil_div a b <= a.
Proof.
  intros Hb Ha. unfold ceil_div.
  assert (- a <= (- a) / b); [|lia].
  apply Z.div_le_lower_bound; nia.
Qed.

(** ** Running the loop *)

(** With a positive step the loop started at [i] performs
    [ceil ((len - i) / step)] iterations and returns the windows. *)
Lemma chunkLoop_run (text : list A) chunkSize overlap :
  overlap < chunkSize ->
  forall n i chunks fuel,
    n = Z.to_nat (ceil_div (len text - i) (chunkSize - overlap)) ->
    (n < fuel)%nat ->
    chunkLoop fuel text chunkSize overlap i chunks
    = Some (chunks ++ windows n text chunkSize overlap i).
Proof.
  intros Hstep. induction n as [|n IH]; intros i chunks fuel Hn Hfuel.
  - destruct fuel as [|fuel]; [lia|]. simpl.
    destruct (Z.ltb_spec i (len text)) as [Hlt|Hge].
    + pose proof (ceil_div_pos (len text - i) (chunkSize - overlap)). lia.
    + by rewrite app_nil_r.
  - destruct fuel as [|fuel]; [lia|]. simpl.
    destruct (Z.ltb_spec i (len text)) as [Hlt|Hge].
    + rewrite (IH (i + (chunkSize - overlap))
                 (chunks ++ [slice text i (i + chunkSize)]) fuel).
      * by rewrite <- app_assoc.
      * rewrite (ceil_div_step (len text - i)) in Hn by lia.
        replace (len text - (i + (chunkSize - overlap)))
          with (len text - i - (chunkSize - overlap)) by lia.
        pose proof (ceil_div_pos (len text - i) (chunkSize - overlap)).
        rewrite (ceil_div_step (len text - i)) in H by lia. lia.
      * lia.
    + pose proof (ceil_div_nonpos (len text - i) (chunkSize - overlap)). lia.
Qed.

Lemma windows_length n (text : list A) chunkSize overlap i :
  length (windows n text chunkSize overlap i) = n.
Proof. revert i. induction n; intros i; simpl; [done|]. by rewrite IHn. Qed.

(** Fuel [length text + 1] is enough whenever the step is positive. *)
Lemma chunkText_run (text : list A) chunkSize overlap fuel :
  overlap < chunkSize ->
  (length text < fuel)%nat ->
  chunkText fuel text chunkSize overlap
  = Some (windows (Z.to_nat (loop_chunk_count (len text) chunkSize overlap))
            text chunkSize overlap 0).
Proof.
  intros Hstep Hfuel. unfold chunkText, loop_chunk_count.
  rewrite (chunkLoop_run text chunkSize overlap Hstep
             (Z.to_nat (ceil_div (len text) (chunkSize - overlap))) 0 [] fuel).
  - done.
  - by rewrite Z.sub_0_r.
  - pose proof (ceil_div_le (len text) (chunkSize - overlap)). lia.
Qed.

(** The call with the default arguments returns what [chunkText_default]
    computes. *)
Lemma chunkText_default_returns (text : list A) :
  returns text default_chunkSize default_overlap (chunkText_default text).
Proof.
  exists (S (length text)). unfold chunkText_default.
  rewrite chunkText_run; [done|unfold default_chunkSize, default_overlap; lia|lia].
Qed.

(** The result does not depend on the fuel. *)
Lemma chunkLoop_fuel_mono fuel fuel' (text : list A) chunkSize overlap i chunks r :
  (fuel <= fuel')%nat ->
  chunkLoop fuel text chunkSize overlap i chunks = Some r ->
  chunkLoop fuel' text chunkSize overlap i chunks = Some r.
Proof.
  revert fuel' i chunks. induction fuel as [|fuel IH]; intros fuel' i chunks Hle H.
  - discriminate.
  - destruct fuel' as [|fuel']; [lia|]. simpl in *.
    destruct (i <? len text); [|done]. apply IH; [lia|done].
Qed.

Lemma returns_unique (text : list A) chunkSize overlap c1 c2 :
  returns text chunkSize overlap c1 ->
  returns text chunkSize overlap c2 -> c1 = c2.
Proof.
  intros [f1 H1] [f2 H2]. unfold chunkText in *.
  apply (chunkLoop_fuel_mono f1 (f1 `max` f2)%nat) in H1; [|lia].
  apply (chunkLoop_fuel_mono f2 (f1 `max` f2)%nat) in H2; [|lia].
  congruence.
Qed.

(** ** Slices with a non-negative start *)

Lemma slice_window (text : list A) b e :
  0 <= b <= e ->
  slice text b e = take (Z.to_nat (e - b)) (drop (Z.to_nat b) text).
Proof.
  intros Hbe. unfold slice, relative_index.
  destruct (Z.ltb_spec b 0) as [?|_]; [lia|].
  destruct (Z.ltb_spec e 0) as [?|_]; [lia|].
  destruct (Z_le_gt_dec b (len text)) as [Hb|Hb].
  - rewrite (Z.min_l b) by lia.
    destruct (Z_le_gt_dec e (len text)) as [He|He].
    + rewrite (Z.min_l e) by lia. by rewrite Z.max_l by lia.
    + rewrite (Z.min_r e) by lia. rewrite Z.max_l by lia.
      rewrite !take_ge; [done| |]; rewrite length_drop; lia.
  - rewrite !Z.min_r by lia.
    rewrite !drop_ge by lia. by rewrite !take_nil.
Qed.

Lemma drop_slice_window (text : list A) chunkSize overlap i :
  0 <= overlap < chunkSize -> 0 <= i ->
  drop (Z.to_nat overlap) (slice text i (i + chunkSize))
  = take (Z.to_nat (chunkSize - overlap)) (drop (Z.to_nat (i + overlap)) text).
Proof.
  intros Ho Hi. rewrite slice_window by lia.
  rewrite skipn_firstn_comm, drop_drop. f_equal; f_equal; lia.
Qed.

(** The windows after the first, each without its overlap, tile the text
    from [i + overlap] on. *)
Lemma windows_tail (text : list A) chunkSize overlap :
  0 <= overlap < chunkSize ->
  forall n i,
    0 <= i ->
    n = Z.to_nat (ceil_div (len text - i) (chunkSize - overlap)) ->
    concat (map (drop (Z.to_nat overlap)) (windows n text chunkSize overlap i))
    = drop (Z.to_nat (i + overlap)) text.
Proof.
  intros Ho. induction n as [|n IH]; intros i Hi Hn.
  - simpl. rewrite drop_ge; [done|].
    destruct (Z_le_gt_dec (len text) i) as [?|Hlt]; [lia|].
    pose proof (ceil_div_pos (len text - i) (chunkSize - overlap)). lia.
  - simpl. rewrite drop_slice_window by lia.
    rewrite (IH (i + (chunkSize - overlap))).
    + replace (Z.to_nat (i + (chunkSize - overlap) + overlap))
        with (Z.to_nat (i + overlap) + Z.to_nat (chunkSize - overlap))%nat by lia.
      rewrite <- drop_drop. apply take_drop.
    + lia.
    + rewrite (ceil_div_step (len text - i)) in Hn by lia.
      replace (len text - (i + (chunkSize - overlap)))
        with (len text - i - (chunkSize - overlap)) by lia.
      destruct (Z_le_gt_dec (len text) i) as [Hge|Hlt].
      * pose proof (ceil_div_nonpos (len text - i) (chunkSize - overlap)).
        rewrite (ceil_div_step (len text - i)) in H by lia. lia.
      * pose proof (ceil_div_pos (len text - i) (chunkSize - overlap)).
        rewrite (ceil_div_step (len text - i)) in H by lia. lia.
Qed.

Lemma windows_rejoin (text : list A) chunkSize overlap :
  0 <= overlap < chunkSize ->
  rejoin (Z.to_nat overlap)
    (windows (Z.to_nat (loop_chunk_count (len text) chunkSize overlap))
       text chunkSize overlap 0)
  = text.
Proof.
  intros Ho. unfold loop_chunk_count.
  destruct (Z.to_nat (ceil_div (len text) (chunkSize - overlap))) as [|n] eqn:Hn.
  - simpl. destruct text as [|a text]; [done|].
    pose proof (ceil_div_pos (len (a :: text)) (chunkSize - overlap)).
    simpl length in *. lia.
  - simpl. rewrite (windows_tail text chunkSize overlap Ho).
    + rewrite slice_window by lia. simpl.
      replace (Z.to_nat (0 + (chunkSize - overlap) + overlap))
        with (Z.to_nat (0 + chunkSize - 0)) by lia.
      apply take_drop.
    + lia.
    + rewrite (ceil_div_step (len text)) in Hn by lia.
      replace (len text - (0 + (chunkSize - overlap)))
        with (len text - (chunkSize - overlap)) by lia.
      lia.
Qed.

(** ** The loop with the capacity of arrays *)




(** The two loops agree as long as the chunks fit in an array. *)
Lemma chunkLoop_extends fuel (text : list A) chunkSize overlap i chunks r :
  chunkLoop fuel text chunkSize overlap i chunks = Some r ->
  exists rest, r = chunks ++ rest.
Proof.
  revert i chunks. induction fuel as [|fuel IH]; intros i chunks H; simpl in H.
  - discriminate.
  - destruct (i <? len text).
    + destruct (IH _ _ H) as [rest ->]. eexists. by rewrite <- app_assoc.
    + injection H as <-. exists []. by rewrite app_nil_r.
Qed.

Lemma chunkLoop_bounded_agrees capacity fuel (text : list A) chunkSize overlap
    i chunks r :
  chunkLoop fuel text chunkSize overlap i chunks = Some r ->
  (length r <= capacity)%nat ->
  chunkLoop_bounded capacity fuel text chunkSize overlap i chunks
  = Some (Chunks r).
Proof.
  revert i chunks. induction fuel as [|fuel IH]; intros i chunks H Hfit;
    simpl in *.
  - discriminate.
  - destruct (i <? len text); [|by injection H as <-].
    destruct (chunkLoop_extends _ _ _ _ _ _ _ H) as [rest ->].
    rewrite !length_app in Hfit. simpl in Hfit.
    destruct (Nat.ltb_spec (length chunks) capacity) as [_|?]; [|lia].
    apply IH; [done|]. rewrite !length_app. simpl. lia.
Qed.

Lemma chunkText_empty fuel chunkSize overlap :
  chunkText (S fuel) (@nil A) chunkSize overlap = Some [].
Proof. reflexivity. Qed.

End WithUnit.

(** ** Reconstruction *)

(** C1. For every text and every configuration with
    [0 <= overlap < chunkSize], the chunker returns a chunk sequence, and
    the first chunk followed by every later chunk without its first
    [overlap] code units is the text again. *)
Theorem chunkText_rejoin {A : Type} (text : list A) (chunkSize overlap : Z) :
  0 <= overlap < chunkSize ->
  exists chunks,
    returns text chunkSize overlap chunks
    /\ rejoin (Z.to_nat overlap) chunks = text.
Proof.
  intros Ho. eexists. split.
  - exists (S (length text)). apply chunkText_run; lia.
  - by apply windows_rejoin.
Qed.

Lemma chunkText_rejoin_witness :
  0 <= 1 < 4
  /\ exists chunks,
       returns example_text 4 1 chunks /\ rejoin (Z.to_nat 1) chunks = example_text.
Proof. split; [lia | apply (chunkText_rejoin example_text 4 1); lia]. Defined.

(** ** Chunk count *)

(** What the code returns on the example of the specification: a fourth
    chunk, made of the last code unit alone. *)
Lemma chunkText_example :
  chunkText 5 example_text 4 1
  = Some [units "ABCD"; units "DEFG"; units "GHIJ"; units "J"].
Proof. reflexivity. Qed.

(** C2, as stated, fails on the example: the code returns four chunks
    where the announced count [ceil ((10 - 1) / (4 - 1))] is three, and
    the sequence returned is not [ABCD, DEFG, GHIJ]. *)
Lemma chunk_count_counterexample :
  exists chunks,
    returns example_text 4 1 chunks
    /\ Z.of_nat (length chunks)
       <> spec_chunk_count (Z.of_nat (length example_text)) 4 1
    /\ chunks <> [units "ABCD"; units "DEFG"; units "GHIJ"].
Proof.
  eexists. split; [exists 5%nat; exact chunkText_example|].
  split; [vm_compute; discriminate | discriminate].
Qed.

(** C2, amended. For every text and every configuration with
    [chunkSize > overlap], the chunker returns
    [ceil (len / (chunkSize - overlap))] chunks; on ["ABCDEFGHIJ"] with
    size 4 and overlap 1 these are [ABCD, DEFG, GHIJ, J]. *)
Theorem chunkText_count {A : Type} (text : list A) (chunkSize overlap : Z) :
  chunkSize > overlap ->
  (exists chunks,
     returns text chunkSize overlap chunks
     /\ Z.of_nat (length chunks)
        = loop_chunk_count (Z.of_nat (length text)) chunkSize overlap)
  /\ returns example_text 4 1
       [units "ABCD"; units "DEFG"; units "GHIJ"; units "J"].
Proof.
  intros Ho. split.
  - eexists. split.
    + exists (S (length text)). apply chunkText_run; lia.
    + rewrite windows_length. apply Z2Nat.id.
      unfold loop_chunk_count.
      destruct (Z_le_gt_dec (Z.of_nat (length text)) 0) as [Hz|Hp].
      * replace (Z.of_nat (length text)) with 0 by lia.
        unfold ceil_div. simpl. rewrite Z.div_0_l; lia.
      * pose proof (ceil_div_pos (Z.of_nat (length text)) (chunkSize - overlap)).
        lia.
  - exists 5%nat. exact chunkText_example.
Qed.

Lemma chunkText_count_witness :
  4 > 1
  /\ (exists chunks,
        returns example_text 4 1 chunks
        /\ Z.of_nat (length chunks)
           = loop_chunk_count (Z.of_nat (length example_text)) 4 1)
  /\ returns example_text 4 1
       [units "ABCD"; units "DEFG"; units "GHIJ"; units "J"].
Proof. split; [lia | apply (chunkText_count example_text 4 1); lia]. Defined.

(** ** Configurations that do not advance *)




(** ** Termination *)

(** C10. Whenever [chunkSize > overlap >= 0] the chunker is total: every
    iteration whose guard holds moves the index forward by the positive
    amount [chunkSize - overlap], and with any fuel above the text length
    the loop returns one and the same finite chunk list.  The default
    arguments 500 and 50 satisfy the precondition. *)
Theorem chunkText_terminates {A : Type} (text : list A) (chunkSize overlap : Z) :
  chunkSize > overlap /\ overlap >= 0 ->
  (forall fuel i chunks,
     i < Z.of_nat (length text) ->
     i < i + (chunkSize - overlap)
     /\ chunkLoop (S fuel) text chunkSize overlap i chunks
        = chunkLoop fuel text chunkSize overlap (i + (chunkSize - overlap))
            (chunks ++ [slice text i (i + chunkSize)]))
  /\ (exists chunks,
        forall fuel, (length text < fuel)%nat ->
          chunkText fuel text chunkSize overlap = Some chunks)
  /\ (default_chunkSize > default_overlap /\ default_overlap >= 0).
Proof.
  intros [Hs Ho]. split; [|split].
  - intros fuel i chunks Hi. split; [lia|]. simpl.
    by destruct (Z.ltb_spec i (Z.of_nat (length text))); [|lia].
  - eexists. intros fuel Hfuel. apply chunkText_run; [lia|done].
  - unfold default_chunkSize, default_overlap. lia.
Qed.

Lemma chunkText_terminates_witness :
  (4 > 1 /\ 1 >= 0)
  /\ exists chunks,
       forall fuel, (length example_text < fuel)%nat ->
         chunkText fuel example_text 4 1 = Some chunks.
Proof.
  split; [lia|].
  apply (chunkText_terminates example_text 4 1). lia.
Defined.

End ChunkerFacts.

(* ===================================================================== *)
(** * 8. Properties of the embedding client and of the handlers           *)
(* ===================================================================== *)

Module ServerFacts.
Import JS World Server Logic.
Local Open Scope string_scope.
Local Open Scope nat_scope.
Local Open Scope list_scope.

(** ** Rejections *)




(** ** The embedding client *)

(** C8, as stated, fails: when the service answers with an object that
    has no vector the client returns [undefined], and when the vector is
    empty it returns the empty array; it does not fail. *)
Lemma getEmbedding_malformed_payload :
  (getEmbedding Scenario.no_vector "some text" Scenario.fresh).1
  = Returned VUndefined
  /\ (getEmbedding Scenario.empty_vector "some text" Scenario.fresh).1
     = Returned (VArr []).
Proof. split; reflexivity. Qed.

(** C8, amended. For every input text, when the embedding call answers
    with an object whose vector field is missing, the client returns the
    property [0] of that object, [undefined] when there is none; when the
    vector field is an empty array, it returns that empty array.  In both
    cases it returns and does not fail. *)
Theorem getEmbedding_returns_payload (env : Env) (text : string) (w : World)
    (fields : gmap string value) :
  axios_post env (trace w) HF_API_URL text (authorization env)
  = Returned (VObj fields) ->
  (fields !! "embedding" = None ->
   (getEmbedding env text w).1 = Returned (default VUndefined (fields !! "0")))
  /\ (fields !! "embedding" = Some (VArr []) ->
      (getEmbedding env text w).1 = Returned (VArr [])).
Proof.
  intros Hpost. unfold getEmbedding, bind, call, get. rewrite Hpost. simpl.
  split; intros Hfield; by rewrite Hfield.
Qed.

Lemma getEmbedding_returns_payload_witness :
  (getEmbedding Scenario.no_vector "some text" Scenario.fresh).1
  = Returned (default VUndefined ((∅ : gmap string value) !! "0")).
Proof.
  apply (getEmbedding_returns_payload Scenario.no_vector "some text"
           Scenario.fresh ∅).
  - reflexivity.
  - reflexivity.
Defined.

(** ** Reading the history *)

Lemma emitted_app (w w' : World) evs :
  trace w' = trace w ++ evs -> emitted w w' = evs.
Proof. intros H. unfold emitted. rewrite H. apply drop_app_length. Qed.

Lemma emitted_refl (w : World) : emitted w w = [].
Proof. apply emitted_app. by rewrite app_nil_r. Qed.

Lemma trace_record ev w : trace (record ev w) = trace w ++ [ev].
Proof. done. Qed.

(** Membership in an explicit list of events, decided by inspection. *)
Ltac inspect H :=
  repeat (apply elem_of_cons in H as [H|H]; [try discriminate H|]);
  try (by apply elem_of_nil in H).

(** The events added to the initial world by a world reached through
    [record]s. *)
Ltac events :=
  erewrite emitted_app;
  [|rewrite ?trace_record, <- ?app_assoc; simpl app; reflexivity].

(** ** Computations that only read *)

Lemma reads_only_ret {A} (a : A) : reads_only (ret a).
Proof. by exists (Returned a). Qed.

Lemma reads_only_throw {A} e : reads_only (@throw A e).
Proof. by exists (Thrown e). Qed.

Lemma reads_only_bind {A B} (m : M A) (k : A -> M B) :
  reads_only m -> (forall a, reads_only (k a)) -> reads_only (bind m k).
Proof.
  intros [[a|e] Hm] Hk.
  - destruct (Hk a) as [r Hr]. exists r. intros w. unfold bind.
    by rewrite Hm, Hr.
  - exists (Thrown e). intros w. unfold bind. by rewrite Hm.
Qed.

Lemma reads_only_get (env : Env) v key : reads_only (get env v key).
Proof. destruct v; eauto using reads_only_ret, reads_only_throw. Qed.

Lemma reads_only_at0 (env : Env) v : reads_only (at0 env v).
Proof.
  destruct v as [| | | |[|c s]| |]; eauto using reads_only_ret, reads_only_throw.
Qed.

Lemma reads_only_get_opt (env : Env) v key : reads_only (get_opt env v key).
Proof.
  unfold get_opt. destruct (nullish v);
    eauto using reads_only_ret, reads_only_get.
Qed.

Lemma reads_only_context_entries (env : Env) results i :
  reads_only (context_entries env i results).
Proof.
  revert i. induction results as [|doc rest IH]; intros i; simpl.
  - apply reads_only_ret.
  - repeat (apply reads_only_bind; [|intros ?]);
      auto using reads_only_ret, reads_only_get.
Qed.

Lemma reads_only_answer_of (env : Env) v : reads_only (answer_of env v).
Proof.
  unfold answer_of.
  repeat (apply reads_only_bind; [|intros ?]);
    auto using reads_only_get, reads_only_at0, reads_only_get_opt.
Qed.

(** ** Rules of the program logic *)

Lemma post_ret {A} (a : A) Q w : Q (Returned a) w -> post (ret a) Q w.
Proof. done. Qed.

Lemma post_throw {A} e (Q : outcome A -> World -> Prop) w :
  Q (Thrown e) w -> post (throw e) Q w.
Proof. done. Qed.

Lemma post_bind {A B} (m : M A) (k : A -> M B) Q w :
  post m (fun r w' => match r with
                      | Returned a => post (k a) Q w'
                      | Thrown e => Q (Thrown e) w'
                      end) w ->
  post (bind m k) Q w.
Proof. unfold post, bind. by destruct (m w) as [[a|e] w']. Qed.

Lemma post_try_catch {A} (m : M A) (h : error -> M A) Q w :
  post m (fun r w' => match r with
                      | Returned a => Q (Returned a) w'
                      | Thrown e => post (h e) Q w'
                      end) w ->
  post (try_catch m h) Q w.
Proof. unfold post, try_catch. by destruct (m w) as [[a|e] w']. Qed.

Lemma post_call {A} (answer : list event -> outcome A) ev Q w :
  (forall r, answer (trace w) = r -> Q r (record (ev r) w)) ->
  post (call answer ev) Q w.
Proof. intros H. by apply H. Qed.

Lemma post_call_unit (answer : list event -> option error) ev Q w :
  (forall r, answer (trace w) = r ->
     Q (match r with Some e => Thrown e | None => Returned tt end)
       (record (ev r) w)) ->
  post (call_unit answer ev) Q w.
Proof. intros H. by apply H. Qed.

Lemma post_reads_only {A} (m : M A) Q w :
  reads_only m -> (forall r, (forall w', m w' = (r, w')) -> Q r w) ->
  post m Q w.
Proof. intros [r Hm] H. unfold post. rewrite Hm. by apply H. Qed.

Lemma post_console_error label e Q w :
  Q (Returned tt) (record (EConsoleError label e) w) ->
  post (console_error label e) Q w.
Proof. done. Qed.

Lemma post_console_log line Q w :
  Q (Returned tt) (record (EConsoleLog line) w) ->
  post (console_log line) Q w.
Proof. done. Qed.

(** ** The namespace of a query *)

(** Whatever the request and the session hold, the search of the query
    handler runs in the namespace written in the handler. *)
Lemma query_search_namespace (env : Env) (req : Request) (w : World)
    store question k r :
  ESimilaritySearch store question k r ∈ emitted w (query env req w).2 ->
  vs_namespace store = query_namespace.
Proof.
  revert store question k r.
  change (post (query env req)
            (fun _ w' => forall store question k r,
               ESimilaritySearch store question k r ∈ emitted w w' ->
               vs_namespace store = query_namespace) w).
  unfold query.
  apply post_try_catch, post_bind, post_reads_only; [apply reads_only_get|].
  intros [q|e] _.
  - destruct (truthy q); simpl.
    + apply post_bind, post_call_unit. intros [e|] _.
      * apply post_bind, post_console_error, post_ret.
        events. intros ???? H. inspect H.
      * apply post_bind, post_call. intros [results|e] _.
        -- apply post_bind, post_reads_only; [apply reads_only_context_entries|].
           intros [entries|e] _.
           ++ apply post_bind, post_call. intros [cc|e] _.
              ** apply post_bind, post_reads_only; [apply reads_only_answer_of|].
                 intros [ans|e] _.
                 --- apply post_ret. events. intros ???? H. inspect H.
                     by inversion H.
                 --- apply post_bind, post_console_error, post_ret.
                     events. intros ???? H. inspect H. by inversion H.
              ** apply post_bind, post_console_error, post_ret.
                 events. intros ???? H. inspect H. by inversion H.
           ++ apply post_bind, post_console_error, post_ret.
              events. intros ???? H. inspect H. by inversion H.
        -- apply post_bind, post_console_error, post_ret.
           events. intros ???? H. inspect H. by inversion H.
    + apply post_ret. rewrite emitted_refl. intros ???? H. inspect H.
  - apply post_bind, post_console_error, post_ret.
    events. intros ???? H. inspect H.
Qed.

(** C4, on the code. One session uploads a document and then asks a
    question: the upload mints the namespace ["0"], returns it and stores
    it in the session, and the query handler searches the namespace
    written in its source, which is another one. *)
Theorem query_ignores_minted_namespace :
  exists uploaded answered store question w',
    serve Scenario.healthy
      [PostUploadPdf Scenario.upload_request;
       PostQuery (Scenario.question_request "What is it about?")]
      Scenario.fresh
    = ([(Returned (respond 200
                     (BUploaded "PDF processed and stored successfully" "0" 1 1)),
         uploaded);
        (Returned (respond 200 (BAnswer (VStr "I don't know") [])), answered)],
       w')
    /\ EAddDocuments {| vs_index := "pdf-chat"; vs_namespace := "0" |}
         [Scenario.page] None ∈ uploaded
    /\ sessions w' !! "s1" = Some "0"
    /\ ESimilaritySearch store question 5 (Returned []) ∈ answered
    /\ vs_namespace store = query_namespace
    /\ vs_namespace store <> "0".
Proof.
  do 5 eexists. split; [vm_compute; reflexivity|].
  split; [repeat constructor|]. split; [vm_compute; reflexivity|].
  split; [apply list_elem_of_further, list_elem_of_here|].
  split; [reflexivity|discriminate].
Qed.

(** ** A search without results *)

(** A property read with a truthy result is an own property of an
    object. *)
Lemma get_truthy (env : Env) v key q :
  (forall w, get env v key w = (Returned q, w)) ->
  truthy q = true ->
  exists fields, v = VObj fields /\ fields !! key = Some q.
Proof.
  intros Hget Hq. specialize (Hget Scenario.fresh).
  destruct v; simpl in Hget; try discriminate Hget;
    try (injection Hget as <-; discriminate Hq).
  exists fields. split; [done|].
  destruct (fields !! key) as [v|]; simpl in Hget; injection Hget as <-;
    [done|discriminate Hq].
Qed.

(** C9. When the similarity search of a query returns no result, the
    handler goes on with an empty context.  The question searched for is
    the [question] of the request body.  The handler sends the completion
    request whose system message is the prompt with the context [""]
    (the JSON form of the empty string) and whose user message is that
    question; and when the service answers with a completion whose first
    choice has a message with a content, the response is 200 with that
    content as the answer and an empty list of sources. *)
Theorem query_without_results (env : Env) (req : Request) (w : World)
    store question k :
  ESimilaritySearch store question k (Returned [])
    ∈ emitted w (query env req w).2 ->
  (exists fields, body req = VObj fields /\ fields !! "question" = Some question)
  /\ exists r,
       EChatCompletion
         {| messages :=
              [ {| role := "system";
                   content :=
                     VStr (let nl := String "010"%char EmptyString in
                           let quote := String "034"%char EmptyString in
                           nl ++ "    You are an AI assistant that answers questions based on the provided context from PDF documents."
                           ++ nl ++ "    - Always stay truthful to the context"
                           ++ nl ++ "    - If you don't know, say you don't know"
                           ++ nl ++ "    - Keep answers concise and accurate"
                           ++ nl ++ "    - give all the details (can give in paragraph) "
                           ++ nl ++ "    "
                           ++ nl ++ "    Context:"
                           ++ nl ++ "     " ++ quote ++ quote
                           ++ nl ++ "    ")%string |};
                {| role := "user"; content := question |} ];
            model := "llama-3.3-70b-versatile";
            temperature := S754_finite false 5404319552844595 (-54);
            max_tokens := 1024 |} r
         ∈ emitted w (query env req w).2
       /\ forall completion choice rest message answer,
            r = Returned (VObj completion) ->
            completion !! "choices" = Some (VArr (VObj choice :: rest)) ->
            choice !! "message" = Some (VObj message) ->
            message !! "content" = Some answer ->
            (query env req w).1 = Returned (respond 200 (BAnswer answer [])).
Proof.
  revert store question k.
  change (post (query env req)
            (fun o w' => forall store question k,
               ESimilaritySearch store question k (Returned []) ∈ emitted w w' ->
               (exists fields,
                  body req = VObj fields /\ fields !! "question" = Some question)
               /\ exists r,
                    EChatCompletion (chat_request EmptyString question) r
                      ∈ emitted w w'
                    /\ forall completion choice rest message answer,
                         r = Returned (VObj completion) ->
                         completion !! "choices"
                         = Some (VArr (VObj choice :: rest)) ->
                         choice !! "message" = Some (VObj message) ->
                         message !! "content" = Some answer ->
                         o = Returned (respond 200 (BAnswer answer []))) w).
  unfold query.
  apply post_try_catch, post_bind, post_reads_only; [apply reads_only_get|].
  intros [q|e] Hget.
  - destruct (truthy q) eqn:Hq; cbn [negb].
    + destruct (get_truthy env (body req) "question" q Hget Hq) as [fields Hbody].
      apply post_bind, post_call_unit. intros [e|] _.
      * apply post_bind, post_console_error, post_ret.
        events. intros ??? H. inspect H.
      * apply post_bind, post_call. intros [results|e] _.
        -- apply post_bind, post_reads_only; [apply reads_only_context_entries|].
           intros [entries|e] Hentries.
           ++ apply post_bind, post_call. intros [cc|e] _.
              ** apply post_bind, post_reads_only; [apply reads_only_answer_of|].
                 intros [ans|e] Hans.
                 --- apply post_ret. events. intros ??? H. inspect H.
                     injection H as _ <- _ <-.
                     specialize (Hentries w). injection Hentries as <-.
                     split; [by exists fields|]. eexists.
                     split; [do 2 apply list_elem_of_further; apply list_elem_of_here|].
                     intros completion choice rest message answer
                       [= ->] Hchoices Hmessage Hcontent.
                     specialize (Hans w). revert Hans.
                     unfold answer_of, bind, get, at0, get_opt. cbn.
                     rewrite Hchoices. cbn. rewrite Hmessage. cbn.
                     rewrite Hcontent. cbn. by intros [= <-].
                 --- apply post_bind, post_console_error, post_ret.
                     events. intros ??? H. inspect H.
                     injection H as _ <- _ <-.
                     specialize (Hentries w). injection Hentries as <-.
                     split; [by exists fields|]. eexists.
                     split; [do 2 apply list_elem_of_further; apply list_elem_of_here|].
                     intros completion choice rest message answer
                       [= ->] Hchoices Hmessage Hcontent.
                     specialize (Hans w). revert Hans.
                     unfold answer_of, bind, get, at0, get_opt. cbn.
                     rewrite Hchoices. cbn. rewrite Hmessage. cbn.
                     rewrite Hcontent. cbn. discriminate.
              ** apply post_bind, post_console_error, post_ret.
                 events. intros ??? H. inspect H.
                 injection H as _ <- _ <-.
                 specialize (Hentries w). injection Hentries as <-.
                 split; [by exists fields|]. eexists.
                 split; [do 2 apply list_elem_of_further; apply list_elem_of_here|].
                 intros ????? [=].
           ++ apply post_bind, post_console_error, post_ret.
              events. intros ??? H. inspect H. injection H as _ _ _ <-.
              specialize (Hentries w). discriminate Hentries.
        -- apply post_bind, post_console_error, post_ret.
           events. intros ??? H. inspect H.
    + apply post_ret. rewrite emitted_refl. intros ??? H. inspect H.
  - apply post_bind, post_console_error, post_ret.
    events. intros ??? H. inspect H.
Qed.

(** The run of the witness: the search finds nothing and the answer comes
    back with status 200. *)
Lemma query_without_results_witness :
  (query Scenario.healthy (Scenario.question_request "What is it about?")
     Scenario.fresh).1
  = Returned (respond 200 (BAnswer (VStr "I don't know") [])).
Proof.
  destruct (query_without_results Scenario.healthy
              (Scenario.question_request "What is it about?") Scenario.fresh
              {| vs_index := "pdf-chat"; vs_namespace := query_namespace |}
              (VStr "What is it about?") 5) as (_ & r & Hin & Hanswer).
  - vm_compute. apply list_elem_of_further, list_elem_of_here.
  - vm_compute in Hin. inspect Hin. injection Hin as ->.
    eapply Hanswer; reflexivity.
Defined.

(** ** More rules: identifiers, sessions, files, batches *)

Lemma post_mono {A} (m : M A) (Q Q' : outcome A -> World -> Prop) w :
  post m Q w -> (forall o w', Q o w' -> Q' o w') -> post m Q' w.
Proof. unfold post. auto. Qed.

Lemma post_uuidv4 (env : Env) Q w :
  Q (Returned (uuid env (uuids_drawn w)))
    {| files := files w; sessions := sessions w;
       uuids_drawn := S (uuids_drawn w);
       trace := trace w ++ [EUuid (uuid env (uuids_drawn w))] |} ->
  post (uuidv4 env) Q w.
Proof. done. Qed.

Lemma post_set_session_namespace sid namespace Q w :
  Q (Returned tt)
    {| files := files w; sessions := <[sid := namespace]> (sessions w);
       uuids_drawn := uuids_drawn w; trace := trace w |} ->
  post (set_session_namespace sid namespace) Q w.
Proof. done. Qed.

Lemma post_unlinkSync (env : Env) p Q w :
  (files w !! p = None ->
   Q (Thrown (enoent env p)) (record (EUnlink p (Some (enoent env p))) w)) ->
  (forall e, is_Some (files w !! p) -> unlink_error env (trace w) p = Some e ->
   Q (Thrown e) (record (EUnlink p (Some e)) w)) ->
  (is_Some (files w !! p) -> unlink_error env (trace w) p = None ->
   Q (Returned tt)
     (record (EUnlink p None)
        {| files := delete p (files w); sessions := sessions w;
           uuids_drawn := uuids_drawn w; trace := trace w |})) ->
  post (unlinkSync env p) Q w.
Proof.
  intros Hnone Hfail Hok. unfold post, unlinkSync.
  destruct (files w !! p) as [c|] eqn:Hp; [|by apply Hnone].
  destruct (unlink_error env (trace w) p) as [e|] eqn:He.
  - by apply Hfail.
  - by apply Hok.
Qed.

Lemma later_refl w : later w w [].
Proof. unfold later. by rewrite app_nil_r. Qed.

(** The batching loop touches neither the files, the sessions nor the
    identifiers; it adds documents under its store only, and when it fails
    the error is that of one of its calls. *)
Lemma post_add_batches (env : Env) store docs fuel i
    (Q : outcome unit -> World -> Prop) w :
  (forall o w' evs,
     later w w' evs -> Forall (batch_event store) evs ->
     (forall e, o = Thrown e ->
        exists batch, EAddDocuments store batch (Some e) ∈ evs) ->
     Q o w') ->
  post (add_batches env fuel store docs i) Q w.
Proof.
  revert i Q w. induction fuel as [|fuel IH]; intros i Q w HQ; cbn [add_batches].
  - apply post_ret, (HQ _ _ []); [apply later_refl|constructor|done].
  - destruct (i <? length docs).
    + apply post_bind, post_call_unit. intros [e|] _.
      * apply (HQ _ _ [EAddDocuments store (take batchSize (drop i docs)) (Some e)]).
        -- done.
        -- by repeat constructor.
        -- intros e' [= <-]. eexists. apply list_elem_of_here.
      * apply post_bind, post_console_log, IH.
        intros o w' evs (Hf & Hs & Hu & Ht) Hevs Herr.
        eapply (HQ _ _ (_ :: _ :: evs)).
        -- split; [done|]. split; [done|]. split; [done|].
           rewrite Ht, !trace_record. by rewrite <- !app_assoc.
        -- repeat constructor; done.
        -- intros e He. destruct (Herr e He) as [batch Hb]. exists batch.
           by do 2 apply list_elem_of_further.
    + apply post_ret, (HQ _ _ []); [apply later_refl|constructor|done].
Qed.

(** ** The temporary file of an upload *)

(** C7, as stated, fails.  When the parser fails and the deletion fails
    too, the handler ends with the error of the deletion: no 500 response
    carrying the parser's error is sent.  When every stage succeeds and
    the deletion fails, the handler ends with that error as well, although
    the documents were stored.  In both runs the file stays on disk. *)
Lemma upload_deletion_failure_escapes :
  (upload_pdf Scenario.parser_and_disk_fail Scenario.upload_request
     Scenario.fresh).1
  = Thrown (Scenario.failure "EPERM")
  /\ (upload_pdf Scenario.disk_fails Scenario.upload_request Scenario.fresh).1
     = Thrown (Scenario.failure "EPERM")
  /\ files (upload_pdf Scenario.parser_and_disk_fail Scenario.upload_request
              Scenario.fresh).2 !! "upload/1-a.pdf"
     = Some "%PDF".
Proof. repeat split; vm_compute; reflexivity. Qed.

(** The handler of a failed upload, once the request is known to carry a
    file at a non-empty path that is on disk and can be deleted: it logs,
    deletes the file and answers 500 with the message of the error. *)
Lemma post_upload_catch (env : Env) p label e (resp : Response) (w : World) :
  is_Some (files w !! p) ->
  (forall h, unlink_error env h p = None) ->
  post (console_error label e ;; unlinkSync env p ;; ret resp)
    (fun o w' =>
       o = Returned resp /\ files w' !! p = None
       /\ trace w' = trace w ++ [EConsoleError label e; EUnlink p None]) w.
Proof.
  intros Hfile Hunlink.
  apply post_bind, post_console_error, post_bind, post_unlinkSync.
  - intros Hnone. simpl in Hnone. rewrite Hnone in Hfile. by destruct Hfile.
  - intros e' _ He'. by rewrite Hunlink in He'.
  - intros _ _. apply post_ret. split; [done|]. split.
    + simpl. apply lookup_delete_eq.
    + rewrite !trace_record. simpl. by rewrite <- app_assoc.
Qed.

(** Projections of a world built by the rules, in normal form. *)
Ltac world :=
  cbn [files sessions uuids_drawn trace record];
  rewrite <- ?app_assoc; cbn [app].

(** C7, amended. For every upload invocation that received a file, stored
    on disk at a non-empty path, and whenever the deletion itself does not
    fail: the handler deletes the file on every exit path, and it answers
    either 200, or 500 with the message of the error of the stage that
    failed. *)
Theorem upload_deletes_file (env : Env) (req : Request) (f : File) (w : World) :
  file req = Some f ->
  path f <> EmptyString ->
  is_Some (files w !! path f) ->
  (forall h, unlink_error env h (path f) = None) ->
  files (upload_pdf env req w).2 !! path f = None
  /\ EUnlink (path f) None ∈ emitted w (upload_pdf env req w).2
  /\ ((exists namespace chunks pages,
         (upload_pdf env req w).1
         = Returned (respond 200
                       (BUploaded "PDF processed and stored successfully"
                          namespace chunks pages)))
      \/ (exists ev e,
            ev ∈ emitted w (upload_pdf env req w).2
            /\ is_unlink ev = false
            /\ event_error ev = Some e
            /\ (upload_pdf env req w).1
               = Returned (respond 500
                             (BUploadFailed "Failed to process PDF" (message e)
                                (if development env then Some (stack e)
                                 else None))))).
Proof.
  intros Hfile Hpath Hdisk Hunlink.
  change (post (upload_pdf env req)
            (fun o w' =>
               files w' !! path f = None
               /\ EUnlink (path f) None ∈ emitted w w'
               /\ ((exists namespace chunks pages,
                      o = Returned (respond 200
                                      (BUploaded "PDF processed and stored successfully"
                                         namespace chunks pages)))
                   \/ (exists ev e,
                         ev ∈ emitted w w'
                         /\ is_unlink ev = false
                         /\ event_error ev = Some e
                         /\ o = Returned (respond 500
                                            (BUploadFailed "Failed to process PDF"
                                               (message e)
                                               (if development env then Some (stack e)
                                                else None)))))) w).
  unfold upload_pdf. rewrite Hfile.
  destruct f as [[|c p] name]; [done|]. cbn [path] in *.
  (* what remains to be shown after a failure [e] of the event [ev] *)
  assert (forall ev e w1 evs,
            trace w1 = trace w ++ evs -> files w1 = files w ->
            ev ∈ evs -> is_unlink ev = false -> event_error ev = Some e ->
            post (console_error "Error processing PDF:" e ;;
                  unlinkSync env (String c p) ;;
                  ret (respond 500
                         (BUploadFailed "Failed to process PDF" (message e)
                            (if development env then Some (stack e) else None))))
              (fun o w' =>
                 files w' !! String c p = None
                 /\ EUnlink (String c p) None ∈ emitted w w'
                 /\ ((exists namespace chunks pages,
                        o = Returned (respond 200
                                        (BUploaded "PDF processed and stored successfully"
                                           namespace chunks pages)))
                     \/ (exists ev e,
                           ev ∈ emitted w w'
                           /\ is_unlink ev = false
                           /\ event_error ev = Some e
                           /\ o = Returned (respond 500
                                              (BUploadFailed "Failed to process PDF"
                                                 (message e)
                                                 (if development env then Some (stack e)
                                                  else None)))))) w1) as Hcatch.
  { intros ev e w1 evs Ht Hf Hev Hnot Herr.
    eapply post_mono.
    - apply post_upload_catch; [by rewrite Hf|done].
    - intros o w' (-> & Hgone & Ht').
      rewrite Ht, <- app_assoc in Ht'. rewrite (emitted_app _ _ _ Ht').
      split; [done|]. split.
      + apply elem_of_app. right. apply list_elem_of_further, list_elem_of_here.
      + right. exists ev, e. split; [|done]. apply elem_of_app. by left. }
  apply post_try_catch, post_bind, post_call. intros [rawDocs|e] _.
  - apply post_bind, post_call. intros [docs|e] _.
    + apply post_bind, post_uuidv4, post_bind, post_set_session_namespace,
        post_bind, post_call_unit. intros [e|] _.
      * eapply (Hcatch (EFromExistingIndex _ _ (Some e)) e);
          [world; reflexivity|world; reflexivity| |done|done].
        do 3 apply list_elem_of_further. apply list_elem_of_here.
      * apply post_bind, post_add_batches.
        intros o w1 evs (Hf & _ & _ & Ht) Hevs Herr.
        cbn [files sessions uuids_drawn trace record] in Ht, Hf.
        rewrite <- !app_assoc in Ht. cbn [app] in Ht.
        destruct o as [[]|e].
        -- apply post_bind, post_unlinkSync.
           ++ intros Hnone. rewrite Hf in Hnone. rewrite Hnone in Hdisk.
              by destruct Hdisk.
           ++ intros e _ He. by rewrite Hunlink in He.
           ++ intros _ _. apply post_ret. split; [world; apply lookup_delete_eq|].
              erewrite emitted_app; [|world; rewrite Ht, <- app_assoc; reflexivity].
              split; [|left; by eauto].
              apply elem_of_app. right. apply list_elem_of_here.
        -- destruct (Herr e eq_refl) as [batch Hb].
           eapply (Hcatch (EAddDocuments _ batch (Some e)) e);
             [exact Ht|done| |done|done].
           do 4 apply list_elem_of_further. exact Hb.
    + eapply (Hcatch (ESplitDocuments _ (Thrown e)) e);
        [world; reflexivity|world; reflexivity| |done|done].
      apply list_elem_of_further, list_elem_of_here.
  - eapply (Hcatch (EPdfLoad _ (Thrown e)) e);
      [world; reflexivity|world; reflexivity| |done|done].
    apply list_elem_of_here.
Qed.

Lemma upload_deletes_file_witness :
  files (upload_pdf Scenario.healthy Scenario.upload_request Scenario.fresh).2
    !! path Scenario.stored = None
  /\ EUnlink (path Scenario.stored) None
       ∈ emitted Scenario.fresh
           (upload_pdf Scenario.healthy Scenario.upload_request Scenario.fresh).2.
Proof.
  pose proof (upload_deletes_file Scenario.healthy Scenario.upload_request
                Scenario.stored Scenario.fresh) as H.
  destruct H as (Hgone & Hunlink & _).
  - reflexivity.
  - discriminate.
  - exists "%PDF". reflexivity.
  - intros h. reflexivity.
  - split; [exact Hgone|exact Hunlink].
Defined.

(** ** Namespaces of the uploads *)

Lemma namespaces_used_app evs1 evs2 :
  namespaces_used (evs1 ++ evs2) = namespaces_used evs1 ++ namespaces_used evs2.
Proof. unfold namespaces_used. by rewrite map_app, concat_app. Qed.

Lemma batch_namespaces store evs ns :
  Forall (batch_event store) evs ->
  ns ∈ namespaces_used evs -> ns = vs_namespace store.
Proof.
  induction 1 as [|ev evs Hev _ IH]; intros Hns.
  - by apply elem_of_nil in Hns.
  - change (ns ∈ event_namespaces ev ++ namespaces_used evs) in Hns.
    apply elem_of_app in Hns as [Hns|Hns]; [|by apply IH].
    destruct ev; try (by apply elem_of_nil in Hns); try done.
    simpl in *. apply list_elem_of_singleton in Hns. by subst.
Qed.

Lemma upload_mints (env : Env) (req : Request) (w : World) :
  post (upload_pdf env req) (minted_only env w) w.
Proof.
  unfold upload_pdf.
  (* the handler of a failure, from a world [w1] reached with events [evs] *)
  assert (forall e w1 evs,
            trace w1 = trace w ++ evs ->
            uuids_drawn w <= uuids_drawn w1 ->
            (forall ns, ns ∈ namespaces_used evs ->
               ns = uuid env (uuids_drawn w)
               /\ uuids_drawn w1 = S (uuids_drawn w)) ->
            post (console_error "Error processing PDF:" e ;;
                  match file req with
                  | Some {| path := String c p |} => unlinkSync env (String c p)
                  | _ => ret tt
                  end ;;
                  ret (respond 500
                         (BUploadFailed "Failed to process PDF" (message e)
                            (if development env then Some (stack e) else None))))
              (minted_only env w) w1) as Hcatch.
  { intros e w1 evs Ht Hle Hns.
    assert (forall tail o w',
              trace w' = trace w1 ++ tail -> namespaces_used tail = [] ->
              uuids_drawn w' = uuids_drawn w1 ->
              (forall m ns c p, o <> Returned (respond 200 (BUploaded m ns c p))) ->
              minted_only env w o w') as Hdone.
    { intros tail o w' Ht' Htail Hu Ho. exists (evs ++ tail).
      rewrite Ht', Ht, <- app_assoc, Hu. split; [done|]. split; [done|].
      rewrite namespaces_used_app, Htail, app_nil_r. split; [done|].
      intros m ns c p Heq. by destruct (Ho m ns c p). }
    apply post_bind, post_console_error, post_bind.
    destruct (file req) as [[[|c p] name]|].
    - apply post_ret, post_ret.
      by eapply (Hdone [_]); [world; reflexivity|..].
    - apply post_unlinkSync; intros; try apply post_ret;
        by eapply (Hdone [_; _]); [world; reflexivity|..].
    - apply post_ret, post_ret.
      by eapply (Hdone [_]); [world; reflexivity|..]. }
  apply post_try_catch.
  destruct (file req) as [f|] eqn:Hfile.
  - apply post_bind, post_call. intros [rawDocs|e] _.
    + apply post_bind, post_call. intros [docs|e] _.
      * apply post_bind, post_uuidv4, post_bind, post_set_session_namespace,
          post_bind, post_call_unit. intros [e|] _.
        -- eapply Hcatch; [world; reflexivity|world; lia|].
           intros ns Hns. world. inspect Hns; subst; done.
        -- apply post_bind, post_add_batches.
           intros o w1 evs (_ & _ & Hu & Ht) Hevs Herr.
           cbn [files sessions uuids_drawn trace record] in Ht, Hu, Hevs.
           rewrite <- !app_assoc in Ht. cbn [app] in Ht.
           assert (forall ns tail,
                     namespaces_used tail = [] ->
                     ns ∈ namespaces_used
                            (EPdfLoad (path f) (Returned rawDocs)
                             :: ESplitDocuments rawDocs (Returned docs)
                             :: EUuid (uuid env (uuids_drawn w))
                             :: EFromExistingIndex (index_name env)
                                  (uuid env (uuids_drawn w)) None
                             :: evs ++ tail) ->
                     ns = uuid env (uuids_drawn w)) as Hall.
           { intros ns tail Htail Hns.
             change (ns ∈ uuid env (uuids_drawn w) :: uuid env (uuids_drawn w)
                          :: namespaces_used (evs ++ tail)) in Hns.
             rewrite namespaces_used_app, Htail, app_nil_r in Hns.
             apply elem_of_cons in Hns as [->|Hns]; [done|].
             apply elem_of_cons in Hns as [->|Hns]; [done|].
             by apply (batch_namespaces _ _ _ Hevs) in Hns. }
           destruct o as [[]|e].
           ++ apply post_bind, post_unlinkSync.
              ** intros _. eapply Hcatch; [world; rewrite Ht, <- app_assoc; reflexivity|world; lia|].
                 intros ns Hns. world. rewrite Hu. split; [|done].
                 by eapply (Hall ns [_]); [|exact Hns].
              ** intros e _ _. eapply Hcatch; [world; rewrite Ht, <- app_assoc; reflexivity|world; lia|].
                 intros ns Hns. world. rewrite Hu. split; [|done].
                 by eapply (Hall ns [_]); [|exact Hns].
              ** intros _ _. apply post_ret. eexists.
                 split; [world; rewrite Ht, <- app_assoc; reflexivity|].
                 world. rewrite Hu. split; [lia|]. split.
                 --- intros ns Hns. split; [|done].
                     by eapply (Hall ns [_]); [|exact Hns].
                 --- intros m ns c p [= _ <- _ _].
                     change (uuid env (uuids_drawn w) ∈ 
                        (uuid env (uuids_drawn w) ::  uuid env (uuids_drawn w)
                          :: namespaces_used (evs ++ [EUnlink (path f) None]))).
                     apply list_elem_of_here.
           ++ eapply Hcatch; [exact Ht|lia|].
              intros ns Hns. split; [|done].
              eapply (Hall ns []); [done|]. by rewrite app_nil_r.
      * eapply Hcatch; [world; reflexivity|world; lia|].
        intros ns Hns. inspect Hns.
    + eapply Hcatch; [world; reflexivity|world; lia|].
      intros ns Hns. inspect Hns.
  - apply post_ret. exists []. rewrite app_nil_r.
    split; [done|]. split; [done|]. split; [|done].
    intros ns Hns. inspect Hns.
Qed.


Lemma upload_minted (env : Env) (req : Request) (w : World) :
  exists evs,
    trace (upload_pdf env req w).2 = trace w ++ evs
    /\ uuids_drawn w <= uuids_drawn (upload_pdf env req w).2
    /\ (forall ns, ns ∈ namespaces_used evs ->
          ns = uuid env (uuids_drawn w)
          /\ uuids_drawn (upload_pdf env req w).2 = S (uuids_drawn w))
    /\ (forall m ns c p,
          (upload_pdf env req w).1 = Returned (respond 200 (BUploaded m ns c p)) ->
          ns ∈ namespaces_used evs).
Proof. exact (upload_mints env req w). Qed.

Lemma query_draws_nothing (env : Env) (req : Request) (w : World) :
  uuids_drawn (query env req w).2 = uuids_drawn w.
Proof.
  change (post (query env req) (fun _ w' => uuids_drawn w' = uuids_drawn w) w).
  unfold query.
  apply post_try_catch, post_bind, post_reads_only; [apply reads_only_get|].
  intros [q|e] _; [|by apply post_bind, post_console_error, post_ret].
  destruct (truthy q); simpl; [|by apply post_ret].
  apply post_bind, post_call_unit.
  intros [e|] _; [by apply post_bind, post_console_error, post_ret|].
  apply post_bind, post_call.
  intros [results|e] _; [|by apply post_bind, post_console_error, post_ret].
  apply post_bind, post_reads_only; [apply reads_only_context_entries|].
  intros [entries|e] _; [|by apply post_bind, post_console_error, post_ret].
  apply post_bind, post_call.
  intros [cc|e] _; [|by apply post_bind, post_console_error, post_ret].
  apply post_bind, post_reads_only; [apply reads_only_answer_of|].
  intros [ans|e] _; [by apply post_ret|].
  by apply post_bind, post_console_error, post_ret.
Qed.

Lemma handle_draws (env : Env) r w :
  uuids_drawn w <= uuids_drawn (handle env r w).2.
Proof.
  destruct r as [|req|req]; simpl.
  - done.
  - by destruct (upload_minted env req w) as (evs & _ & Hle & _).
  - by rewrite query_draws_nothing.
Qed.

Lemma serve_cons (env : Env) r rest w :
  serve env (r :: rest) w
  = (((handle env r w).1, emitted w (handle env r w).2)
       :: (serve env rest (handle env r w).2).1,
     (serve env rest (handle env r w).2).2).
Proof.
  cbn [serve]. destruct (handle env r w) as [o w']. cbn [fst snd].
  by destruct (serve env rest w') as [os w''].
Qed.

Lemma serve_draws (env : Env) reqs w :
  uuids_drawn w <= uuids_drawn (serve env reqs w).2.
Proof.
  revert w. induction reqs as [|r rest IH]; intros w; [done|].
  rewrite serve_cons. simpl.
  etrans; [apply (handle_draws env r w)|apply IH].
Qed.

(** The namespaces of the upload at position [i] are identifiers drawn
    while the requests were served. *)
Lemma serve_upload_range (env : Env) reqs w i req run ns :
  reqs !! i = Some (PostUploadPdf req) ->
  (serve env reqs w).1 !! i = Some run ->
  ns ∈ namespaces_used run.2 ->
  exists k, ns = uuid env k
            /\ uuids_drawn w <= k < uuids_drawn (serve env reqs w).2.
Proof.
  revert w i. induction reqs as [|r rest IH]; intros w i Hreq Hrun Hns; [done|].
  rewrite serve_cons in *. simpl in *.
  destruct i as [|i]; simpl in *.
  - injection Hreq as ->. injection Hrun as <-. simpl in *.
    destruct (upload_minted env req w) as (evs & Ht & _ & Hmint & _).
    rewrite (emitted_app _ _ _ Ht) in Hns.
    destruct (Hmint ns Hns) as [-> Hs].
    exists (uuids_drawn w). split; [done|].
    pose proof (serve_draws env rest (upload_pdf env req w).2). lia.
  - destruct (IH _ _ Hreq Hrun Hns) as (k & -> & Hk).
    exists k. split; [done|].
    pose proof (handle_draws env r w). lia.
Qed.

Lemma serve_upload_order (env : Env) reqs w i j req_i req_j run_i run_j ns_i ns_j :
  Inj (=) (=) (uuid env) ->
  i < j ->
  reqs !! i = Some (PostUploadPdf req_i) ->
  reqs !! j = Some (PostUploadPdf req_j) ->
  (serve env reqs w).1 !! i = Some run_i ->
  (serve env reqs w).1 !! j = Some run_j ->
  ns_i ∈ namespaces_used run_i.2 ->
  ns_j ∈ namespaces_used run_j.2 ->
  ns_i <> ns_j.
Proof.
  intros Hinj. revert w i j.
  induction reqs as [|r rest IH]; intros w i j Hlt Hi Hj Hri Hrj Hni Hnj; [done|].
  rewrite serve_cons in *. simpl in *.
  destruct j as [|j]; [lia|]. destruct i as [|i]; simpl in *.
  - injection Hi as ->. injection Hri as <-. simpl in *.
    destruct (upload_minted env req_i w) as (evs & Ht & _ & Hmint & _).
    rewrite (emitted_app _ _ _ Ht) in Hni.
    destruct (Hmint ns_i Hni) as [-> Hs].
    destruct (serve_upload_range env rest _ j req_j run_j ns_j Hj Hrj Hnj)
      as (k & -> & Hk).
    intros Heq. apply Hinj in Heq. lia.
  - apply (IH (handle env r w).2 i j); [lia|done..].
Qed.

(** C5. Whatever requests the server handles one after the other, two
    distinct upload invocations never share a namespace: every namespace
    an upload mints, opens a store on or adds documents under differs
    from every namespace of any other upload, and the namespace an upload
    returns is one it minted.  The identifier generator [uuidv4] is taken
    not to repeat itself. *)
Theorem upload_namespaces_fresh (env : Env) (reqs : list HttpRequest) (w : World) :
  Inj (=) (=) (uuid env) ->
  (forall i j req_i req_j run_i run_j ns_i ns_j,
     i <> j ->
     reqs !! i = Some (PostUploadPdf req_i) ->
     reqs !! j = Some (PostUploadPdf req_j) ->
     (serve env reqs w).1 !! i = Some run_i ->
     (serve env reqs w).1 !! j = Some run_j ->
     ns_i ∈ namespaces_used run_i.2 ->
     ns_j ∈ namespaces_used run_j.2 ->
     ns_i <> ns_j)
  /\ (forall i req m ns c p evs,
        reqs !! i = Some (PostUploadPdf req) ->
        (serve env reqs w).1 !! i
        = Some (Returned (respond 200 (BUploaded m ns c p)), evs) ->
        ns ∈ namespaces_used evs).
Proof.
  intros Hinj. split.
  - intros i j req_i req_j run_i run_j ns_i ns_j Hne Hi Hj Hri Hrj Hni Hnj.
    destruct (Nat.lt_total i j) as [Hlt|[->|Hgt]]; [|done|].
    + by eapply (serve_upload_order env reqs w i j).
    + intros Heq. symmetry in Heq. revert Heq.
      by eapply (serve_upload_order env reqs w j i).
  - revert w. induction reqs as [|r rest IH]; intros w i req m ns c p evs Hi Hrun;
      [done|].
    rewrite serve_cons in Hrun. simpl in Hrun.
    destruct i as [|i]; simpl in *.
    + injection Hi as ->. injection Hrun as Ho <-. simpl in Ho.
      destruct (upload_minted env req w) as (evs & Ht & _ & _ & Hret).
      rewrite (emitted_app _ _ _ Ht). by eapply Hret.
    + by eapply IH.
Qed.


Lemma nat_to_string_inj : Inj (=) (=) nat_to_string.
Proof.
  intros n m H. unfold nat_to_string in H.
  apply (f_equal NilEmpty.uint_of_string) in H.
  rewrite !NilEmpty.usu in H. injection H as H.
  by apply Unsigned.to_uint_inj.
Qed.

Lemma upload_namespaces_fresh_witness :
  exists run_0 run_1,
    (serve Scenario.healthy
       [PostUploadPdf Scenario.upload_request;
        PostUploadPdf Scenario.second_upload_request]
       Scenario.two_files).1 !! 0 = Some run_0
    /\ (serve Scenario.healthy
          [PostUploadPdf Scenario.upload_request;
           PostUploadPdf Scenario.second_upload_request]
          Scenario.two_files).1 !! 1 = Some run_1
    /\ "0" ∈ namespaces_used run_0.2
    /\ "1" ∈ namespaces_used run_1.2
    /\ ("0" : string) <> "1".
Proof.
  eexists _, _.
  split; [vm_compute; reflexivity|]. split; [vm_compute; reflexivity|].
  split; [vm_compute; apply list_elem_of_here|].
  split; [vm_compute; apply list_elem_of_here|].
  eapply (proj1 (upload_namespaces_fresh Scenario.healthy
                  [PostUploadPdf Scenario.upload_request;
                   PostUploadPdf Scenario.second_upload_request]
                  Scenario.two_files nat_to_string_inj)
           0 1 Scenario.upload_request Scenario.second_upload_request _ _ "0" "1").
  - lia.
  - reflexivity.
  - reflexivity.
  - vm_compute. reflexivity.
  - vm_compute. reflexivity.
  - vm_compute. apply list_elem_of_here.
  - vm_compute. apply list_elem_of_here.
Defined.

(** ** The fuel of the batching loop *)

(** Once the fuel covers the documents that remain, more fuel changes
    nothing: the bound [length docs] used by the upload handler never
    cuts the loop short. *)
Lemma add_batches_fuel (env : Env) store docs fuel fuel' i w :
  length docs <= i + fuel * batchSize ->
  fuel <= fuel' ->
  add_batches env fuel' store docs i w = add_batches env fuel store docs i w.
Proof.
  revert fuel' i w. induction fuel as [|fuel IH]; intros fuel' i w Hlen Hle.
  - destruct fuel' as [|fuel']; [done|]. cbn [add_batches].
    destruct (Nat.ltb_spec i (length docs)); [lia|done].
  - destruct fuel' as [|fuel']; [lia|]. cbn [add_batches].
    destruct (Nat.ltb_spec i (length docs)); [|done].
    unfold bind.
    destruct (call_unit _ _ w) as [[[]|e] w1]; [|done].
    destruct (console_log _ w1) as [[[]|e] w2]; [|done].
    apply IH; unfold batchSize in *; lia.
Qed.

Lemma add_batches_enough (env : Env) store docs fuel w :
  length docs <= fuel ->
  add_batches env fuel store docs 0 w
  = add_batches env (length docs) store docs 0 w.
Proof.
  intros Hle. apply add_batches_fuel; [unfold batchSize; lia|done].
Qed.

(** ** [processPdfAndStoreInPinecone] and the file it reads *)

Lemma keeps_files_ret {A} (a : A) : keeps_files (ret a).
Proof. done. Qed.

Lemma keeps_files_throw {A} e : keeps_files (@throw A e).
Proof. done. Qed.

Lemma keeps_files_bind {A B} (m : M A) (k : A -> M B) :
  keeps_files m -> (forall a, keeps_files (k a)) -> keeps_files (bind m k).
Proof.
  intros Hm Hk w. unfold bind. specialize (Hm w).
  destruct (m w) as [[a|e] w1]; simpl in *; [|done].
  by rewrite Hk.
Qed.

Lemma keeps_files_try_catch {A} (m : M A) (h : error -> M A) :
  keeps_files m -> (forall e, keeps_files (h e)) -> keeps_files (try_catch m h).
Proof.
  intros Hm Hh w. unfold try_catch. specialize (Hm w).
  destruct (m w) as [[a|e] w1]; simpl in *; [done|].
  by rewrite Hh.
Qed.

Lemma keeps_files_call {A} (answer : list event -> outcome A) ev :
  keeps_files (call answer ev).
Proof. done. Qed.

Lemma keeps_files_call_unit answer ev : keeps_files (call_unit answer ev).
Proof. done. Qed.

Lemma keeps_files_reads_only {A} (m : M A) : reads_only m -> keeps_files m.
Proof. intros [r Hm] w. by rewrite Hm. Qed.

Lemma keeps_files_getEmbedding (env : Env) text :
  keeps_files (getEmbedding env text).
Proof.
  unfold getEmbedding.
  apply keeps_files_bind; [apply keeps_files_call|intros data].
  apply keeps_files_bind; [apply keeps_files_reads_only, reads_only_get|].
  intros embedding. destruct (truthy embedding).
  - apply keeps_files_ret.
  - apply keeps_files_reads_only, reads_only_at0.
Qed.

Lemma keeps_files_embed_chunks (env : Env) chunks i vectors :
  keeps_files (embed_chunks env chunks i vectors).
Proof.
  revert i vectors. induction chunks as [|chunk rest IH]; intros i vectors.
  - apply keeps_files_ret.
  - cbn [embed_chunks].
    apply keeps_files_bind; [apply keeps_files_getEmbedding|intros embedding].
    apply keeps_files_bind; [done|intros ms]. apply IH.
Qed.

(** The other ingestion path never deletes the file it was given. *)
Lemma processPdf_keeps_files (env : Env) filePath :
  keeps_files (processPdfAndStoreInPinecone env filePath).
Proof.
  unfold processPdfAndStoreInPinecone.
  apply keeps_files_try_catch.
  - apply keeps_files_bind; [done|intros buffer].
    apply keeps_files_bind; [apply keeps_files_call|intros text].
    apply keeps_files_bind; [apply keeps_files_embed_chunks|intros vectors].
    apply keeps_files_bind; [apply keeps_files_call_unit|intros _]. done.
  - intros e. apply keeps_files_bind; [done|intros _]. apply keeps_files_throw.
Qed.

End ServerFacts.

(* ===================================================================== *)
(** * 9. More on the chunker                                              *)
(* ===================================================================== *)

Module ChunkerMore.
Import Chunker ChunkerFacts.

Section WithUnit.
Context {A : Type}.
Local Abbreviation len text := (Z.of_nat (length text)) (only parsing).

Lemma windows_lookup (text : list A) chunkSize overlap n i k :
  (k < n)%nat ->
  windows n text chunkSize overlap i !! k
  = Some (slice text (i + Z.of_nat k * (chunkSize - overlap))
            (i + Z.of_nat k * (chunkSize - overlap) + chunkSize)).
Proof.
  revert i k. induction n as [|n IH]; intros i k Hk; [lia|].
  destruct k as [|k]; simpl windows.
  - simpl. do 2 f_equal; lia.
  - change ((?x :: ?l) !! S k) with (l !! k). rewrite IH by lia.
    do 2 f_equal; lia.
Qed.

(** What a call with a positive step returns is the list of windows. *)
Lemma returns_windows (text : list A) chunkSize overlap chunks :
  overlap < chunkSize ->
  returns text chunkSize overlap chunks ->
  chunks = windows (Z.to_nat (loop_chunk_count (len text) chunkSize overlap))
             text chunkSize overlap 0.
Proof.
  intros Hstep Hret. eapply returns_unique; [exact Hret|].
  exists (S (length text)). apply chunkText_run; lia.
Qed.

(** An index below the chunk count starts inside the text. *)
Lemma window_starts_inside n step k :
  0 < step -> 0 <= n ->
  (k < Z.to_nat (ceil_div n step))%nat ->
  Z.of_nat k * step < n.
Proof.
  intros Hstep Hn Hk. unfold ceil_div in Hk.
  pose proof (Z.mul_succ_div_gt (- n) step Hstep). nia.
Qed.

End WithUnit.

(** The chunk of index [k], in closed form. *)
Lemma chunk_lookup {A : Type} (text : list A) (chunkSize overlap : Z)
    (chunks : list (list A)) (k : nat) (chunk : list A) :
  0 <= overlap < chunkSize ->
  returns text chunkSize overlap chunks ->
  chunks !! k = Some chunk ->
  chunk = take (Z.to_nat chunkSize)
            (drop (k * Z.to_nat (chunkSize - overlap)) text).
Proof.
  intros Ho Hret Hk.
  rewrite (returns_windows text chunkSize overlap chunks) in Hk by (lia || done).
  assert (k < Z.to_nat (loop_chunk_count (Z.of_nat (length text)) chunkSize overlap))%nat
    as Hlt.
  { apply lookup_lt_Some in Hk. by rewrite windows_length in Hk. }
  rewrite windows_lookup in Hk by done. injection Hk as <-.
  rewrite slice_window by nia. f_equal; [lia|]. f_equal. nia.
Qed.

(** X1. With [0 <= overlap < chunkSize], the chunk of index [k] is the
    window of the text that starts [k * (chunkSize - overlap)] units in
    and is at most [chunkSize] units long. *)
Theorem chunk_at {A : Type} (text : list A) (chunkSize overlap : Z)
    (chunks : list (list A)) (k : nat) (chunk : list A) :
  0 <= overlap < chunkSize ->
  returns text chunkSize overlap chunks ->
  chunks !! k = Some chunk ->
  chunk = take (Z.to_nat chunkSize)
            (drop (k * Z.to_nat (chunkSize - overlap)) text).
Proof. apply chunk_lookup. Qed.

Lemma chunk_at_witness :
  units "DEFG" = take (Z.to_nat 4) (drop (1 * Z.to_nat (4 - 1)) example_text).
Proof.
  apply (chunk_at example_text 4 1
           [units "ABCD"; units "DEFG"; units "GHIJ"; units "J"] 1 (units "DEFG")).
  - lia.
  - exists 5%nat. reflexivity.
  - reflexivity.
Defined.

(** X2. With [0 <= overlap < chunkSize], no chunk is empty and no chunk
    is longer than [chunkSize]. *)
Theorem chunk_length_bounds {A : Type} (text : list A) (chunkSize overlap : Z)
    (chunks : list (list A)) (chunk : list A) :
  0 <= overlap < chunkSize ->
  returns text chunkSize overlap chunks ->
  chunk ∈ chunks ->
  0 < Z.of_nat (length chunk) <= chunkSize.
Proof.
  intros Ho Hret Hin. apply list_elem_of_lookup in Hin as [k Hk].
  pose proof (chunk_lookup text chunkSize overlap chunks k chunk Ho Hret Hk) as ->.
  rewrite (returns_windows text chunkSize overlap chunks) in Hk by (lia || done).
  apply lookup_lt_Some in Hk. rewrite windows_length in Hk.
  apply window_starts_inside in Hk; [|lia..].
  rewrite length_take, length_drop. nia.
Qed.

Lemma chunk_length_bounds_witness :
  0 < Z.of_nat (length (units "J")) <= 4.
Proof.
  apply (chunk_length_bounds example_text 4 1
           [units "ABCD"; units "DEFG"; units "GHIJ"; units "J"] (units "J")).
  - lia.
  - exists 5%nat. reflexivity.
  - do 3 apply list_elem_of_further. apply list_elem_of_here.
Defined.

(** X3. With [0 <= overlap < chunkSize], the units of a chunk that follow
    its first [chunkSize - overlap] units are exactly the first [overlap]
    units of the next chunk. *)
Theorem chunk_overlap {A : Type} (text : list A) (chunkSize overlap : Z)
    (chunks : list (list A)) (k : nat) (chunk next : list A) :
  0 <= overlap < chunkSize ->
  returns text chunkSize overlap chunks ->
  chunks !! k = Some chunk ->
  chunks !! S k = Some next ->
  drop (Z.to_nat (chunkSize - overlap)) chunk = take (Z.to_nat overlap) next.
Proof.
  intros Ho Hret Hk Hnext.
  rewrite (chunk_lookup text chunkSize overlap chunks k chunk Ho Hret Hk).
  rewrite (chunk_lookup text chunkSize overlap chunks (S k) next Ho Hret Hnext).
  rewrite skipn_firstn_comm, drop_drop, take_take.
  f_equal; [lia|]. f_equal. lia.
Qed.

Lemma chunk_overlap_witness :
  drop (Z.to_nat (4 - 1)) (units "ABCD") = take (Z.to_nat 1) (units "DEFG").
Proof.
  apply (chunk_overlap example_text 4 1
           [units "ABCD"; units "DEFG"; units "GHIJ"; units "J"] 0).
  - lia.
  - exists 5%nat. reflexivity.
  - reflexivity.
  - reflexivity.
Defined.

(** X4. With [0 <= overlap < chunkSize], a non-empty text of at most
    [chunkSize - overlap] units comes back as one chunk, the text itself. *)
Theorem chunk_short_text {A : Type} (text : list A) (chunkSize overlap : Z) :
  0 <= overlap < chunkSize ->
  0 < Z.of_nat (length text) <= chunkSize - overlap ->
  returns text chunkSize overlap [text].
Proof.
  intros Ho Hlen. exists (S (length text)).
  rewrite chunkText_run by lia. f_equal.
  assert (loop_chunk_count (Z.of_nat (length text)) chunkSize overlap = 1) as ->.
  { unfold loop_chunk_count.
    rewrite (ceil_div_step (Z.of_nat (length text))) by lia.
    pose proof (ceil_div_nonpos (Z.of_nat (length text) - (chunkSize - overlap))
                  (chunkSize - overlap)).
    pose proof (ceil_div_pos (Z.of_nat (length text)) (chunkSize - overlap)).
    rewrite (ceil_div_step (Z.of_nat (length text))) in H0 by lia. lia. }
  simpl. rewrite slice_window by lia. simpl. f_equal. apply take_ge. lia.
Qed.

Lemma chunk_short_text_witness : returns (units "AB") 4 1 [units "AB"].
Proof. apply (chunk_short_text (units "AB") 4 1); simpl; lia. Defined.

End ChunkerMore.

(* ===================================================================== *)
(** * 10. More on the embedding client and the handlers                   *)
(* ===================================================================== *)

Module ServerMore.
Import JS World Server Logic ServerFacts.
Local Open Scope string_scope.
Local Open Scope nat_scope.
Local Open Scope list_scope.

(** ** The embedding client *)

(** X5. Every call of [getEmbedding] sends exactly one request, with the
    text as its input, and touches nothing else; when the request fails,
    the call fails with the same error, and when the payload is [null] it
    fails with the [TypeError] of reading a property of [null]. *)
Theorem getEmbedding_one_request (env : Env) (text : string) (w : World) :
  later w (getEmbedding env text w).2
    [EAxiosPost HF_API_URL text (authorization env)
       (axios_post env (trace w) HF_API_URL text (authorization env))]
  /\ (forall e,
        axios_post env (trace w) HF_API_URL text (authorization env) = Thrown e ->
        (getEmbedding env text w).1 = Thrown e)
  /\ (axios_post env (trace w) HF_API_URL text (authorization env)
      = Returned VNull ->
      (getEmbedding env text w).1 = Thrown (type_error env VNull "embedding")).
Proof.
  unfold getEmbedding, bind, call.
  destruct (axios_post env (trace w) HF_API_URL text (authorization env))
    as [data|e] eqn:Hpost; simpl.
  - destruct (reads_only_get env data "embedding") as [r Hr]. rewrite Hr.
    split; [|split; [done|]].
    + destruct r as [embedding|e]; [|done].
      destruct (truthy embedding); [done|].
      destruct (reads_only_at0 env data) as [r' Hr']. by rewrite Hr'.
    + intros [= ->]. simpl in Hr.
      specialize (Hr w). by injection Hr as <-.
  - split; [done|]. split; [by intros e' [= <-]|done].
Qed.

Lemma getEmbedding_one_request_witness :
  (getEmbedding Scenario.parser_and_disk_fail "some text" Scenario.fresh).1
  = Thrown (type_error Scenario.parser_and_disk_fail VNull "embedding").
Proof.
  apply (getEmbedding_one_request Scenario.parser_and_disk_fail "some text"
           Scenario.fresh).
  reflexivity.
Defined.

(** X6. When the payload is an object whose [embedding] field is truthy,
    [getEmbedding] returns that field; when the payload is an array, it
    returns its first element, [undefined] for the empty array. *)
Theorem getEmbedding_vector (env : Env) (text : string) (w : World) :
  (forall fields v,
     axios_post env (trace w) HF_API_URL text (authorization env)
     = Returned (VObj fields) ->
     fields !! "embedding" = Some v -> truthy v = true ->
     (getEmbedding env text w).1 = Returned v)
  /\ (forall items,
        axios_post env (trace w) HF_API_URL text (authorization env)
        = Returned (VArr items) ->
        (getEmbedding env text w).1 = Returned (default VUndefined (head items))).
Proof.
  unfold getEmbedding, bind, call. split.
  - intros fields v -> Hv Ht. cbn. rewrite Hv. cbn. by rewrite Ht.
  - by intros items ->.
Qed.

Lemma getEmbedding_vector_witness :
  (getEmbedding Scenario.healthy "some text" Scenario.fresh).1
  = Returned (VArr [VNum (S754_zero false)]).
Proof.
  apply (getEmbedding_vector Scenario.healthy "some text" Scenario.fresh)
    with (fields := {[ "embedding" := VArr [VNum (S754_zero false)] ]}).
  - reflexivity.
  - reflexivity.
  - reflexivity.
Defined.

(** ** [processPdfAndStoreInPinecone] *)

Lemma post_getEmbedding (env : Env) text (Q : outcome value -> World -> Prop) w :
  (forall o r, Q o (record (EAxiosPost HF_API_URL text (authorization env) r) w)) ->
  post (getEmbedding env text) Q w.
Proof.
  intros HQ. unfold getEmbedding.
  apply post_bind, post_call. intros [data|e] _; [|apply HQ].
  apply post_bind, post_reads_only; [apply reads_only_get|].
  intros [embedding|e] _; [|apply HQ].
  destruct (truthy embedding); [apply post_ret, HQ|].
  apply post_reads_only; [apply reads_only_at0|]. intros r _. apply HQ.
Qed.

Lemma post_readFileSync (env : Env) p (Q : outcome string -> World -> Prop) w :
  (forall r,
     r = match files w !! p with
         | Some contents => Returned contents
         | None => Thrown (enoent env p)
         end ->
     Q r (record (EReadFile p r) w)) ->
  post (readFileSync env p) Q w.
Proof. intros HQ. by apply HQ. Qed.

(** The embedding loop sends requests and reads the clock, nothing else;
    when it returns, it has added one vector per chunk, in order, the
    vector of index [j] carrying the text of its chunk and an identifier
    that ends with [i + j]. *)
Lemma post_embed_chunks (env : Env) chunks i vectors
    (Q : outcome (list Vector) -> World -> Prop) w :
  (forall o w' evs,
     later w w' evs -> Forall embedding_event evs ->
     (forall vs, o = Returned vs ->
        exists new,
          vs = vectors ++ new
          /\ map vec_metadata_text new = chunks
          /\ forall j v, new !! j = Some v ->
               exists ms, vec_id v = chunk_id ms (i + j)) ->
     Q o w') ->
  post (embed_chunks env chunks i vectors) Q w.
Proof.
  revert i vectors Q w.
  induction chunks as [|chunk rest IH]; intros i vectors Q w HQ; cbn [embed_chunks].
  - apply post_ret, (HQ _ _ []); [apply later_refl|constructor|].
    intros vs [= <-]. exists []. by rewrite app_nil_r.
  - apply post_bind, post_getEmbedding. intros [embedding|e] r.
    + apply post_bind. unfold post at 1. cbn [fst snd].
      apply IH. intros o w' evs (Hf & Hs & Hu & Ht) Hevs Hvs.
      eapply (HQ _ _ (_ :: _ :: evs)).
      * split; [done|]. split; [done|]. split; [done|].
        rewrite Ht, !trace_record. by rewrite <- !app_assoc.
      * by repeat constructor.
      * intros vs Ho. destruct (Hvs vs Ho) as (new & -> & Htexts & Hids).
        eexists (_ :: new). split; [by rewrite <- app_assoc|].
        split; [by rewrite <- Htexts|].
        intros [|j] v Hj; simpl in Hj.
        -- injection Hj as <-. eexists. simpl. by rewrite Nat.add_0_r.
        -- destruct (Hids j v Hj) as [ms Hms]. exists ms.
           by rewrite Hms, Nat.add_succ_r.
    + eapply (HQ _ _ [_]); [by repeat split|by repeat constructor|done].
Qed.

Lemma embedding_events_only evs ev :
  Forall embedding_event evs -> ev ∈ evs -> embedding_event ev.
Proof. intros Hall Hin. by eapply Forall_forall in Hall. Qed.

(** The vectors of any upsert of a run, and the text they come from. *)
Lemma processPdf_upsert_shape (env : Env) (filePath : string) (w : World)
    vectors r :
  EIndexUpsert vectors r
    ∈ emitted w (processPdfAndStoreInPinecone env filePath w).2 ->
  exists buffer text,
    EPdfParse buffer (Returned text)
      ∈ emitted w (processPdfAndStoreInPinecone env filePath w).2
    /\ map vec_metadata_text vectors
       = map string_of_list_ascii
           (Chunker.chunkText_default (list_ascii_of_string text))
    /\ forall j v, vectors !! j = Some v -> exists ms, vec_id v = chunk_id ms j.
Proof.
  revert vectors r.
  change (post (processPdfAndStoreInPinecone env filePath)
            (fun _ w' => forall vectors r,
               EIndexUpsert vectors r ∈ emitted w w' ->
               exists buffer text,
                 EPdfParse buffer (Returned text) ∈ emitted w w'
                 /\ map vec_metadata_text vectors
                    = map string_of_list_ascii
                        (Chunker.chunkText_default (list_ascii_of_string text))
                 /\ forall j v, vectors !! j = Some v ->
                      exists ms, vec_id v = chunk_id ms j) w).
  unfold processPdfAndStoreInPinecone.
  apply post_try_catch, post_bind, post_readFileSync. intros [buffer|e] _.
  - apply post_bind, post_call. intros [text|e] _.
    + apply post_bind, post_embed_chunks.
      intros o w1 evs (_ & _ & _ & Ht) Hevs Hvs.
      cbn [trace record] in Ht. rewrite <- !app_assoc in Ht. cbn [app] in Ht.
      assert (forall vs r' tail,
                (forall ev, ev ∈ tail -> ev <> EIndexUpsert vs r') ->
                EIndexUpsert vs r' ∈ (EReadFile filePath (Returned buffer)
                   :: EPdfParse buffer (Returned text) :: evs) ++ tail ->
                False) as Hnone.
      { intros vs r' tail Htail Hin.
        apply elem_of_app in Hin as [Hin|Hin]; [|by eapply Htail].
        inspect Hin. by apply (embedding_events_only _ _ Hevs) in Hin. }
      destruct o as [vs|e].
      * destruct (Hvs vs eq_refl) as (new & -> & Htexts & Hids).
        apply post_bind, post_call_unit. intros [e|] _.
        -- apply post_bind, post_console_error, post_throw.
           erewrite emitted_app; [|world; rewrite Ht, <- app_assoc; reflexivity].
           intros vectors r Hin.
           apply elem_of_app in Hin as [Hin|Hin].
           ++ inspect Hin. by apply (embedding_events_only _ _ Hevs) in Hin.
           ++ inspect Hin. injection Hin as -> _.
              exists buffer, text.
              split; [apply list_elem_of_further, list_elem_of_here|].
              split; [done|]. intros j v Hj. by apply (Hids j v).
        -- apply post_console_log.
           erewrite emitted_app; [|world; rewrite Ht, <- app_assoc; reflexivity].
           intros vectors r Hin.
           apply elem_of_app in Hin as [Hin|Hin].
           ++ inspect Hin. by apply (embedding_events_only _ _ Hevs) in Hin.
           ++ inspect Hin. injection Hin as -> _.
              exists buffer, text.
              split; [apply list_elem_of_further, list_elem_of_here|].
              split; [done|]. intros j v Hj. by apply (Hids j v).
      * apply post_bind, post_console_error, post_throw.
        erewrite emitted_app; [|world; rewrite Ht, <- app_assoc; reflexivity].
        intros vectors r Hin.
        apply elem_of_app in Hin as [Hin|Hin].
        -- inspect Hin. by apply (embedding_events_only _ _ Hevs) in Hin.
        -- inspect Hin.
    + apply post_bind, post_console_error, post_throw.
      events. intros vectors r Hin. inspect Hin.
  - apply post_bind, post_console_error, post_throw.
    events. intros vectors r Hin. inspect Hin.
Qed.

Lemma digits_no_dash d :
  Forall (fun c => c <> "-"%char) (list_ascii_of_string (NilEmpty.string_of_uint d)).
Proof. induction d; simpl; constructor; done. Qed.

Lemma split_at_dash d1 d2 r1 r2 :
  Forall (fun c => c <> "-"%char) (list_ascii_of_string d1) ->
  Forall (fun c => c <> "-"%char) (list_ascii_of_string d2) ->
  (d1 ++ String "-" r1 = d2 ++ String "-" r2)%string ->
  d1 = d2 /\ r1 = r2.
Proof.
  revert d2. induction d1 as [|c1 d1 IH]; intros [|c2 d2] H1 H2 Heq; simpl in *.
  - by injection Heq as ->.
  - injection Heq as <- _. by inversion H2.
  - injection Heq as -> _. by inversion H1.
  - injection Heq as -> Heq. inversion H1; inversion H2; subst.
    destruct (IH d2) as [-> ->]; done.
Qed.

Lemma chunk_id_inj ms ms' i i' : chunk_id ms i = chunk_id ms' i' -> i = i'.
Proof.
  unfold chunk_id. intros Heq. simpl in Heq. injection Heq as Heq.
  apply split_at_dash in Heq as [_ Heq]; [|apply digits_no_dash..].
  by apply nat_to_string_inj.
Qed.

(** What a call of [getEmbedding] returns is what the payload of its
    request gives. *)
Lemma post_getEmbedding_payload (env : Env) text
    (Q : outcome value -> World -> Prop) w :
  (forall o r,
     (forall v, o = Returned v ->
        exists data, r = Returned data /\ v = payload_vector data) ->
     Q o (record (EAxiosPost HF_API_URL text (authorization env) r) w)) ->
  post (getEmbedding env text) Q w.
Proof.
  intros HQ. unfold getEmbedding.
  apply post_bind, post_call. intros [data|e] _; [|by apply HQ].
  apply post_bind, post_reads_only; [apply reads_only_get|].
  intros [embedding|e] Hget; [|by apply HQ].
  specialize (Hget w).
  destruct (truthy embedding) eqn:Htruthy.
  - apply post_ret, HQ. intros v [= <-]. exists data. split; [done|].
    destruct data; simpl in Hget; try discriminate Hget;
      try (injection Hget as <-; discriminate Htruthy).
    injection Hget as <-. unfold payload_vector, or_else. by rewrite Htruthy.
  - apply post_reads_only; [apply reads_only_at0|]. intros r Hat.
    apply HQ. intros v ->. exists data. split; [done|].
    specialize (Hat w).
    destruct data as [| | | |[|c s]| |]; simpl in Hget, Hat;
      try discriminate Hget; try (by injection Hat as <-).
    injection Hget as <-. injection Hat as <-.
    unfold payload_vector, or_else. by rewrite Htruthy.
Qed.

Lemma posts_sent_app evs1 evs2 :
  posts_sent (evs1 ++ evs2) = posts_sent evs1 ++ posts_sent evs2.
Proof. unfold posts_sent. by rewrite map_app, concat_app. Qed.

(** The embedding loop, request by request: when it returns, it has sent
    one request per chunk, in order, every one of them answered, and the
    values of each new vector are what the payload for its chunk gives. *)
Lemma post_embed_chunks_posts (env : Env) chunks i vectors
    (Q : outcome (list Vector) -> World -> Prop) w :
  (forall o w' evs,
     later w w' evs -> Forall embedding_event evs ->
     (forall vs, o = Returned vs ->
        exists new payloads,
          vs = vectors ++ new
          /\ map vec_metadata_text new = chunks
          /\ posts_sent evs = zip chunks (map Returned payloads)
          /\ length payloads = length chunks
          /\ map vec_values new = map payload_vector payloads) ->
     Q o w') ->
  post (embed_chunks env chunks i vectors) Q w.
Proof.
  revert i vectors Q w.
  induction chunks as [|chunk rest IH]; intros i vectors Q w HQ; cbn [embed_chunks].
  - apply post_ret, (HQ _ _ []); [apply later_refl|constructor|].
    intros vs [= <-]. exists [], []. by rewrite app_nil_r.
  - apply post_bind, post_getEmbedding_payload. intros [embedding|e] r Hpayload.
    + destruct (Hpayload embedding eq_refl) as (data & -> & ->).
      apply post_bind. unfold post at 1. cbn [fst snd].
      apply IH. intros o w' evs (Hf & Hs & Hu & Ht) Hevs Hvs.
      eapply (HQ _ _ (_ :: _ :: evs)).
      * split; [done|]. split; [done|]. split; [done|].
        rewrite Ht, !trace_record. by rewrite <- !app_assoc.
      * by repeat constructor.
      * intros vs Ho.
        destruct (Hvs vs Ho) as (new & payloads & -> & Htexts & Hposts & Hlen & Hvalues).
        eexists (_ :: new), (data :: payloads).
        split; [by rewrite <- app_assoc|].
        split; [by rewrite <- Htexts|].
        split; [|split; [simpl; by rewrite Hlen|simpl; by rewrite Hvalues]].
        change (posts_sent (?a :: ?b :: evs)) with ((chunk, Returned data) :: posts_sent evs).
        by rewrite Hposts.
    + eapply (HQ _ _ [_]); [by repeat split|by repeat constructor|done].
Qed.

(** The requests behind any upsert of a run. *)
Lemma processPdf_upsert_posts (env : Env) (filePath : string) (w : World)
    vectors r :
  EIndexUpsert vectors r
    ∈ emitted w (processPdfAndStoreInPinecone env filePath w).2 ->
  exists payloads,
    posts_sent (emitted w (processPdfAndStoreInPinecone env filePath w).2)
    = zip (map vec_metadata_text vectors) (map Returned payloads)
    /\ length payloads = length vectors
    /\ map vec_values vectors = map payload_vector payloads.
Proof.
  revert vectors r.
  change (post (processPdfAndStoreInPinecone env filePath)
            (fun _ w' => forall vectors r,
               EIndexUpsert vectors r ∈ emitted w w' ->
               exists payloads,
                 posts_sent (emitted w w')
                 = zip (map vec_metadata_text vectors) (map Returned payloads)
                 /\ length payloads = length vectors
                 /\ map vec_values vectors = map payload_vector payloads) w).
  unfold processPdfAndStoreInPinecone.
  apply post_try_catch, post_bind, post_readFileSync. intros [buffer|e] _.
  - apply post_bind, post_call. intros [text|e] _.
    + apply post_bind, post_embed_chunks_posts.
      intros o w1 evs (_ & _ & _ & Ht) Hevs Hvs.
      cbn [trace record] in Ht. rewrite <- !app_assoc in Ht. cbn [app] in Ht.
      assert (forall tail,
                posts_sent tail = [] ->
                posts_sent ((EReadFile filePath (Returned buffer)
                             :: EPdfParse buffer (Returned text) :: evs) ++ tail)
                = posts_sent evs) as Hposts.
      { intros tail Htail. rewrite posts_sent_app, Htail, app_nil_r. done. }
      destruct o as [vs|e].
      * destruct (Hvs vs eq_refl)
          as (new & payloads & -> & Htexts & Hsent & Hlen & Hvalues).
        assert (length new = length payloads) as Hnew.
        { rewrite Hlen, <- Htexts. by rewrite length_map. }
        apply post_bind, post_call_unit. intros [e|] _.
        -- apply post_bind, post_console_error, post_throw.
           erewrite emitted_app; [|world; rewrite Ht, <- app_assoc; reflexivity].
           intros vectors r Hin. rewrite Hposts by done.
           apply elem_of_app in Hin as [Hin|Hin].
           ++ inspect Hin. by apply (embedding_events_only _ _ Hevs) in Hin.
           ++ inspect Hin. injection Hin as -> _.
              exists payloads. by rewrite Htexts.
        -- apply post_console_log.
           erewrite emitted_app; [|world; rewrite Ht, <- app_assoc; reflexivity].
           intros vectors r Hin. rewrite Hposts by done.
           apply elem_of_app in Hin as [Hin|Hin].
           ++ inspect Hin. by apply (embedding_events_only _ _ Hevs) in Hin.
           ++ inspect Hin. injection Hin as -> _.
              exists payloads. by rewrite Htexts.
      * apply post_bind, post_console_error, post_throw.
        erewrite emitted_app; [|world; rewrite Ht, <- app_assoc; reflexivity].
        intros vectors r Hin.
        apply elem_of_app in Hin as [Hin|Hin].
        -- inspect Hin. by apply (embedding_events_only _ _ Hevs) in Hin.
        -- inspect Hin.
    + apply post_bind, post_console_error, post_throw.
      events. intros vectors r Hin. inspect Hin.
  - apply post_bind, post_console_error, post_throw.
    events. intros vectors r Hin. inspect Hin.
Qed.

(** X7. Whatever [processPdfAndStoreInPinecone] upserts is the chunking of
    the text the parser returned: one vector per chunk of
    [chunkText(text)], in order, each carrying the text of its chunk.  The
    embedding requests of the run are exactly one per chunk, in the order
    of the chunks, every one of them answered, and the values of each
    vector are what the payload for its chunk gives
    ([data.embedding || data[0]]).  So when the parse or any embedding
    fails, nothing is upserted. *)
Theorem processPdf_upserts_chunks (env : Env) (filePath : string) (w : World)
    (vectors : list Vector) (r : option error) :
  EIndexUpsert vectors r
    ∈ emitted w (processPdfAndStoreInPinecone env filePath w).2 ->
  exists buffer text payloads,
    EPdfParse buffer (Returned text)
      ∈ emitted w (processPdfAndStoreInPinecone env filePath w).2
    /\ map vec_metadata_text vectors
       = map string_of_list_ascii
           (Chunker.chunkText_default (list_ascii_of_string text))
    /\ posts_sent (emitted w (processPdfAndStoreInPinecone env filePath w).2)
       = zip (map vec_metadata_text vectors) (map Returned payloads)
    /\ length payloads = length vectors
    /\ map vec_values vectors = map payload_vector payloads.
Proof.
  intros Hin.
  destruct (processPdf_upsert_shape env filePath w vectors r Hin)
    as (buffer & text & Hparse & Htexts & _).
  destruct (processPdf_upsert_posts env filePath w vectors r Hin)
    as (payloads & Hposts).
  by exists buffer, text, payloads.
Qed.

(** The run of the witness: a text of 600 code units, two chunks, two
    requests, one upsert of two vectors. *)
Lemma processPdf_upserts_chunks_witness :
  exists vectors buffer text payloads,
    EIndexUpsert vectors None
      ∈ emitted Scenario.fresh
          (processPdfAndStoreInPinecone Scenario.long_pdf "upload/1-a.pdf"
             Scenario.fresh).2
    /\ length vectors = 2
    /\ EPdfParse buffer (Returned text)
         ∈ emitted Scenario.fresh
             (processPdfAndStoreInPinecone Scenario.long_pdf "upload/1-a.pdf"
                Scenario.fresh).2
    /\ map vec_metadata_text vectors
       = map string_of_list_ascii
           (Chunker.chunkText_default (list_ascii_of_string text))
    /\ posts_sent
         (emitted Scenario.fresh
            (processPdfAndStoreInPinecone Scenario.long_pdf "upload/1-a.pdf"
               Scenario.fresh).2)
       = zip (map vec_metadata_text vectors) (map Returned payloads)
    /\ length payloads = length vectors
    /\ map vec_values vectors = map payload_vector payloads.
Proof.
  assert (exists vectors,
            EIndexUpsert vectors None
              ∈ emitted Scenario.fresh
                  (processPdfAndStoreInPinecone Scenario.long_pdf
                     "upload/1-a.pdf" Scenario.fresh).2
            /\ length vectors = 2) as (vectors & Hin & Hlen).
  { eexists. split.
    - vm_compute. do 6 apply list_elem_of_further. apply list_elem_of_here.
    - reflexivity. }
  destruct (processPdf_upserts_chunks Scenario.long_pdf "upload/1-a.pdf"
              Scenario.fresh vectors None Hin)
    as (buffer & text & payloads & H).
  by exists vectors, buffer, text, payloads.
Defined.

(** X8. The vectors of one upsert of [processPdfAndStoreInPinecone] have
    pairwise distinct identifiers. *)
Theorem processPdf_ids_distinct (env : Env) (filePath : string) (w : World)
    (vectors : list Vector) (r : option error) :
  EIndexUpsert vectors r
    ∈ emitted w (processPdfAndStoreInPinecone env filePath w).2 ->
  NoDup (map vec_id vectors).
Proof.
  intros Hin.
  destruct (processPdf_upsert_shape env filePath w vectors r Hin)
    as (_ & _ & _ & _ & Hids).
  apply NoDup_alt. intros j k x Hj Hk.
  rewrite list_lookup_fmap in Hj, Hk.
  destruct (vectors !! j) as [v|] eqn:Hv; [|done].
  destruct (vectors !! k) as [v'|] eqn:Hv'; [|done].
  simpl in *. injection Hj as <-. injection Hk as Hk.
  destruct (Hids j v Hv) as [ms Hms]. destruct (Hids k v' Hv') as [ms' Hms'].
  rewrite Hms, Hms' in Hk. symmetry in Hk. by apply chunk_id_inj in Hk.
Qed.

(** The run of the witness: the two vectors of a text of 600 code units,
    stamped in the same millisecond, differ by their index. *)
Lemma processPdf_ids_distinct_witness :
  exists vectors,
    EIndexUpsert vectors None
      ∈ emitted Scenario.fresh
          (processPdfAndStoreInPinecone Scenario.long_pdf "upload/1-a.pdf"
             Scenario.fresh).2
    /\ map vec_id vectors = ["chunk-0-0"; "chunk-0-1"]
    /\ NoDup (map vec_id vectors).
Proof.
  assert (exists vectors,
            EIndexUpsert vectors None
              ∈ emitted Scenario.fresh
                  (processPdfAndStoreInPinecone Scenario.long_pdf
                     "upload/1-a.pdf" Scenario.fresh).2
            /\ map vec_id vectors = ["chunk-0-0"; "chunk-0-1"])
    as (vectors & Hin & Hids).
  { eexists. split.
    - vm_compute. do 6 apply list_elem_of_further. apply list_elem_of_here.
    - reflexivity. }
  exists vectors. split; [exact Hin|]. split; [exact Hids|].
  exact (processPdf_ids_distinct Scenario.long_pdf "upload/1-a.pdf"
           Scenario.fresh vectors None Hin).
Defined.



(** X10. When there is no file at the path, [processPdfAndStoreInPinecone]
    fails with the error of the read, after logging it: nothing is parsed,
    embedded or upserted. *)
Theorem processPdf_missing_file (env : Env) (filePath : string) (w : World) :
  files w !! filePath = None ->
  (processPdfAndStoreInPinecone env filePath w).1 = Thrown (enoent env filePath)
  /\ emitted w (processPdfAndStoreInPinecone env filePath w).2
     = [EReadFile filePath (Thrown (enoent env filePath));
        EConsoleError "❌ Error processing PDF:" (enoent env filePath)].
Proof.
  intros Hnone.
  unfold processPdfAndStoreInPinecone, try_catch, bind, readFileSync.
  rewrite Hnone. cbn. split; [done|by events].
Qed.

Lemma processPdf_missing_file_witness :
  (processPdfAndStoreInPinecone Scenario.healthy "upload/none.pdf"
     Scenario.fresh).1
  = Thrown (enoent Scenario.healthy "upload/none.pdf").
Proof.
  apply (processPdf_missing_file Scenario.healthy "upload/none.pdf"
           Scenario.fresh).
  reflexivity.
Defined.

(** ** More on [POST /upload/pdf] *)

Lemma batches_sent_app evs1 evs2 :
  batches_sent (evs1 ++ evs2) = batches_sent evs1 ++ batches_sent evs2.
Proof. unfold batches_sent. by rewrite map_app, concat_app. Qed.

(** The batching loop in full: the batches it sends are consecutive
    pieces of the documents from index [i] on, each of 1 to 100
    documents; when it returns, every batch was accepted and, the fuel
    covering the documents, all of them were sent. *)
Lemma post_add_batches_sent (env : Env) store docs fuel i
    (Q : outcome unit -> World -> Prop) w :
  (forall o w' evs,
     later w w' evs -> Forall (batch_event store) evs ->
     Forall (fun b : list Doc => 0 < length b <= batchSize) (batches_sent evs) ->
     (exists n, concat (batches_sent evs) = take n (drop i docs)) ->
     (o = Returned tt ->
        Forall (fun ev => event_error ev = None) evs
        /\ (length docs <= i + fuel * batchSize ->
            concat (batches_sent evs) = drop i docs)) ->
     Q o w') ->
  post (add_batches env fuel store docs i) Q w.
Proof.
  revert i Q w. induction fuel as [|fuel IH]; intros i Q w HQ; cbn [add_batches].
  - apply post_ret, (HQ _ _ []); [apply later_refl|constructor|constructor| |].
    + by exists 0.
    + intros _. split; [constructor|]. intros Hlen. simpl.
      by rewrite drop_ge by lia.
  - destruct (Nat.ltb_spec i (length docs)) as [Hlt|Hge].
    + assert (0 < length (take batchSize (drop i docs)) <= batchSize) as Hbatch.
      { rewrite length_take, length_drop. unfold batchSize. lia. }
      apply post_bind, post_call_unit. intros [e|] _.
      * eapply (HQ _ _ [_]); [by repeat split|by repeat constructor| | |done].
        -- change (Forall (fun b : list Doc => 0 < length b <= batchSize)
                     [take batchSize (drop i docs)]).
           constructor; [exact Hbatch|constructor].
        -- exists batchSize. cbn. by rewrite app_nil_r.
      * apply post_bind, post_console_log, IH.
        intros o w' evs (Hf & Hs & Hu & Ht) Hevs Hsizes [n Hn] Hok.
        eapply (HQ _ _ (_ :: _ :: evs)).
        -- split; [done|]. split; [done|]. split; [done|].
           rewrite Ht, !trace_record. by rewrite <- !app_assoc.
        -- by repeat constructor.
        -- change (Forall (fun b : list Doc => 0 < length b <= batchSize)
                     (take batchSize (drop i docs) :: batches_sent evs)).
           constructor; [exact Hbatch|exact Hsizes].
        -- exists (batchSize + n).
           change (take batchSize (drop i docs) ++ concat (batches_sent evs)
                   = take (batchSize + n) (drop i docs)).
           rewrite Hn, <- take_take_drop, drop_drop. done.
        -- intros Ho. destruct (Hok Ho) as [Hnone Hall].
           split; [by repeat constructor|]. intros Hlen.
           change (take batchSize (drop i docs) ++ concat (batches_sent evs)
                   = drop i docs).
           rewrite Hall by lia. rewrite <- drop_drop. apply take_drop.
    + apply post_ret, (HQ _ _ []); [apply later_refl|constructor|constructor| |].
      * by exists 0.
      * intros _. split; [constructor|]. intros _. simpl.
        by rewrite drop_ge by lia.
Qed.

(** The run of a successful upload, in full. *)
Lemma upload_success_shape (env : Env) (req : Request) (w : World) m ns c p :
  (upload_pdf env req w).1 = Returned (respond 200 (BUploaded m ns c p)) ->
  exists f rawDocs docs evs,
    file req = Some f
    /\ emitted w (upload_pdf env req w).2
       = EPdfLoad (path f) (Returned rawDocs)
         :: ESplitDocuments rawDocs (Returned docs)
         :: EUuid ns
         :: EFromExistingIndex (index_name env) ns None
         :: evs ++ [EUnlink (path f) None]
    /\ Forall (batch_event {| vs_index := index_name env; vs_namespace := ns |}) evs
    /\ Forall (fun ev => event_error ev = None) evs
    /\ Forall (fun b : list Doc => 0 < length b <= batchSize) (batches_sent evs)
    /\ concat (batches_sent evs) = docs
    /\ m = "PDF processed and stored successfully"
    /\ c = length docs /\ p = length rawDocs
    /\ ns = uuid env (uuids_drawn w)
    /\ sessions (upload_pdf env req w).2 = <[session_id req := ns]> (sessions w)
    /\ files (upload_pdf env req w).2 = delete (path f) (files w).
Proof.
  revert m ns c p.
  change (post (upload_pdf env req)
            (fun o w' => forall m ns c p,
               o = Returned (respond 200 (BUploaded m ns c p)) ->
               exists f rawDocs docs evs,
                 file req = Some f
                 /\ emitted w w'
                    = EPdfLoad (path f) (Returned rawDocs)
                      :: ESplitDocuments rawDocs (Returned docs)
                      :: EUuid ns
                      :: EFromExistingIndex (index_name env) ns None
                      :: evs ++ [EUnlink (path f) None]
                 /\ Forall (batch_event {| vs_index := index_name env;
                                           vs_namespace := ns |}) evs
                 /\ Forall (fun ev => event_error ev = None) evs
                 /\ Forall (fun b : list Doc => 0 < length b <= batchSize)
                      (batches_sent evs)
                 /\ concat (batches_sent evs) = docs
                 /\ m = "PDF processed and stored successfully"
                 /\ c = length docs /\ p = length rawDocs
                 /\ ns = uuid env (uuids_drawn w)
                 /\ sessions w' = <[session_id req := ns]> (sessions w)
                 /\ files w' = delete (path f) (files w)) w).
  unfold upload_pdf.
  (* the handler of a failure never answers 200 *)
  assert (forall e w1 (Q : outcome Response -> World -> Prop),
            (forall o w', (forall b, o <> Returned (respond 200 b)) -> Q o w') ->
            post (console_error "Error processing PDF:" e ;;
                  match file req with
                  | Some {| path := String c p |} => unlinkSync env (String c p)
                  | _ => ret tt
                  end ;;
                  ret (respond 500
                         (BUploadFailed "Failed to process PDF" (message e)
                            (if development env then Some (stack e) else None))))
              Q w1) as Hcatch.
  { intros e w1 Q HQ.
    apply post_bind, post_console_error, post_bind.
    destruct (file req) as [[[|c p] name]|].
    - by apply post_ret, post_ret, HQ.
    - apply post_unlinkSync; intros; try apply post_ret; by apply HQ.
    - by apply post_ret, post_ret, HQ. }
  assert (forall o w',
            (forall b, o <> Returned (respond 200 b)) ->
            forall m ns c p,
              o = Returned (respond 200 (BUploaded m ns c p)) ->
              exists f rawDocs docs evs,
                file req = Some f
                /\ emitted w w'
                   = EPdfLoad (path f) (Returned rawDocs)
                     :: ESplitDocuments rawDocs (Returned docs)
                     :: EUuid ns
                     :: EFromExistingIndex (index_name env) ns None
                     :: evs ++ [EUnlink (path f) None]
                /\ Forall (batch_event {| vs_index := index_name env;
                                          vs_namespace := ns |}) evs
                /\ Forall (fun ev => event_error ev = None) evs
                /\ Forall (fun b : list Doc => 0 < length b <= batchSize)
                     (batches_sent evs)
                /\ concat (batches_sent evs) = docs
                /\ m = "PDF processed and stored successfully"
                /\ c = length docs /\ p = length rawDocs
                /\ ns = uuid env (uuids_drawn w)
                /\ sessions w' = <[session_id req := ns]> (sessions w)
                /\ files w' = delete (path f) (files w)) as Hnot.
  { intros o w' Ho m ns c p Heq. by destruct (Ho (BUploaded m ns c p)). }
  apply post_try_catch.
  destruct (file req) as [f|] eqn:Hfile; [|by apply post_ret, Hnot].
  apply post_bind, post_call. intros [rawDocs|e] _; [|by apply Hcatch].
  apply post_bind, post_call. intros [docs|e] _; [|by apply Hcatch].
  apply post_bind, post_uuidv4, post_bind, post_set_session_namespace,
    post_bind, post_call_unit. intros [e|] _; [by apply Hcatch|].
  apply post_bind, post_add_batches_sent.
  intros o w1 evs (Hf & Hs & Hu & Ht) Hevs Hsizes _ Hok.
  cbn [files sessions uuids_drawn trace record] in Ht, Hf, Hs, Hu, Hevs.
  rewrite <- !app_assoc in Ht. cbn [app] in Ht.
  destruct o as [[]|e]; [|by apply Hcatch].
  destruct (Hok eq_refl) as [Hnone Hall].
  apply post_bind, post_unlinkSync; [intros; by apply Hcatch..|].
  intros _ _. apply post_ret. intros m ns c p [= <- <- <- <-].
  exists f, rawDocs, docs, evs. split; [done|]. split.
  { erewrite emitted_app; [|world; rewrite Ht, <- app_assoc; reflexivity]. done. }
  split; [done|]. split; [done|]. split; [done|]. split.
  { rewrite Hall by (unfold batchSize; lia). apply drop_0. }
  world. by rewrite Hf, Hs.
Qed.

(** X11. When an upload is answered 200, the page count of the response
    is the number of documents the loader returned for the file of the
    request, and the chunk count is the number of documents the splitter
    returned for those. *)
Theorem upload_counts (env : Env) (req : Request) (w : World) m ns c p :
  (upload_pdf env req w).1 = Returned (respond 200 (BUploaded m ns c p)) ->
  exists f rawDocs docs,
    file req = Some f
    /\ EPdfLoad (path f) (Returned rawDocs) ∈ emitted w (upload_pdf env req w).2
    /\ ESplitDocuments rawDocs (Returned docs)
         ∈ emitted w (upload_pdf env req w).2
    /\ p = length rawDocs /\ c = length docs.
Proof.
  intros Hok.
  destruct (upload_success_shape env req w m ns c p Hok)
    as (f & rawDocs & docs & evs & Hfile & -> & _ & _ & _ & _ & _ & -> & -> & _).
  exists f, rawDocs, docs. split; [done|].
  split; [apply list_elem_of_here|].
  split; [apply list_elem_of_further, list_elem_of_here|done].
Qed.

(** The run of the witness: a PDF of two pages cut into three documents. *)
Lemma upload_counts_witness :
  (upload_pdf Scenario.two_pages Scenario.upload_request Scenario.fresh).1
  = Returned (respond 200
                (BUploaded "PDF processed and stored successfully" "0" 3 2))
  /\ exists f rawDocs docs,
       file Scenario.upload_request = Some f
       /\ EPdfLoad (path f) (Returned rawDocs)
            ∈ emitted Scenario.fresh
                (upload_pdf Scenario.two_pages Scenario.upload_request
                   Scenario.fresh).2
       /\ ESplitDocuments rawDocs (Returned docs)
            ∈ emitted Scenario.fresh
                (upload_pdf Scenario.two_pages Scenario.upload_request
                   Scenario.fresh).2
       /\ 2 = length rawDocs /\ 3 = length docs.
Proof.
  split; [reflexivity|].
  apply (upload_counts Scenario.two_pages Scenario.upload_request Scenario.fresh
           "PDF processed and stored successfully" "0" 3 2).
  reflexivity.
Defined.

(** X12. When an upload is answered 200, the batches handed to
    [addDocuments], put end to end in the order of the calls, are exactly
    the documents of the splitter: none is left out, repeated or
    reordered.  Every batch holds between 1 and 100 documents, goes to the
    namespace of the response, and was accepted. *)
Theorem upload_batches (env : Env) (req : Request) (w : World) m ns c p :
  (upload_pdf env req w).1 = Returned (respond 200 (BUploaded m ns c p)) ->
  exists rawDocs docs,
    ESplitDocuments rawDocs (Returned docs) ∈ emitted w (upload_pdf env req w).2
    /\ concat (batches_sent (emitted w (upload_pdf env req w).2)) = docs
    /\ Forall (fun b : list Doc => 0 < length b <= 100)
         (batches_sent (emitted w (upload_pdf env req w).2))
    /\ forall store batch r,
         EAddDocuments store batch r ∈ emitted w (upload_pdf env req w).2 ->
         vs_namespace store = ns /\ r = None.
Proof.
  intros Hok.
  destruct (upload_success_shape env req w m ns c p Hok)
    as (f & rawDocs & docs & evs & _ & -> & Hevs & Hnone & Hsizes & Hall & _).
  exists rawDocs, docs.
  assert (batches_sent
            (EPdfLoad (path f) (Returned rawDocs)
             :: ESplitDocuments rawDocs (Returned docs) :: EUuid ns
             :: EFromExistingIndex (index_name env) ns None
             :: evs ++ [EUnlink (path f) None])
          = batches_sent evs) as ->.
  { change (batches_sent (evs ++ [EUnlink (path f) None]) = batches_sent evs).
    rewrite batches_sent_app. apply app_nil_r. }
  split; [apply list_elem_of_further, list_elem_of_here|].
  split; [done|]. split; [done|].
  intros store batch r Hin. inspect Hin.
  apply elem_of_app in Hin as [Hin|Hin]; [|inspect Hin].
  pose proof (proj1 (Forall_forall _ _) Hevs _ Hin) as Hstore.
  pose proof (proj1 (Forall_forall _ _) Hnone _ Hin) as Hr.
  simpl in Hstore, Hr. by subst.
Qed.

Lemma upload_batches_witness :
  exists rawDocs docs,
    ESplitDocuments rawDocs (Returned docs)
      ∈ emitted Scenario.fresh
          (upload_pdf Scenario.healthy Scenario.upload_request Scenario.fresh).2
    /\ concat (batches_sent
                 (emitted Scenario.fresh
                    (upload_pdf Scenario.healthy Scenario.upload_request
                       Scenario.fresh).2))
       = docs
    /\ Forall (fun b : list Doc => 0 < length b <= 100)
         (batches_sent
            (emitted Scenario.fresh
               (upload_pdf Scenario.healthy Scenario.upload_request
                  Scenario.fresh).2))
    /\ forall store batch r,
         EAddDocuments store batch r
           ∈ emitted Scenario.fresh
               (upload_pdf Scenario.healthy Scenario.upload_request
                  Scenario.fresh).2 ->
         vs_namespace store = "0" /\ r = None.
Proof.
  apply (upload_batches Scenario.healthy Scenario.upload_request Scenario.fresh
           "PDF processed and stored successfully" "0" 1 1).
  reflexivity.
Defined.

(** X13. When an upload is answered 200, the namespace of the response is
    the one stored in the session of the request, no other session has
    changed, and the file of the request is the only file that is gone. *)
Theorem upload_success_state (env : Env) (req : Request) (w : World) m ns c p :
  (upload_pdf env req w).1 = Returned (respond 200 (BUploaded m ns c p)) ->
  sessions (upload_pdf env req w).2 !! session_id req = Some ns
  /\ (forall sid, sid <> session_id req ->
        sessions (upload_pdf env req w).2 !! sid = sessions w !! sid)
  /\ exists f,
       file req = Some f
       /\ files (upload_pdf env req w).2 !! path f = None
       /\ forall other, other <> path f ->
            files (upload_pdf env req w).2 !! other = files w !! other.
Proof.
  intros Hok.
  destruct (upload_success_shape env req w m ns c p Hok)
    as (f & rawDocs & docs & evs & Hfile & _ & _ & _ & _ & _ & _ & _ & _ & _
        & -> & ->).
  split; [apply lookup_insert_eq|].
  split; [intros sid Hsid; by apply lookup_insert_ne|].
  exists f. split; [done|]. split; [apply lookup_delete_eq|].
  intros other Hother. by apply lookup_delete_ne.
Qed.

Lemma upload_success_state_witness :
  sessions (upload_pdf Scenario.healthy Scenario.upload_request Scenario.fresh).2
    !! session_id Scenario.upload_request
  = Some "0".
Proof.
  apply (upload_success_state Scenario.healthy Scenario.upload_request
           Scenario.fresh "PDF processed and stored successfully" "0" 1 1).
  reflexivity.
Defined.

(** X14. Whatever its outcome, an upload leaves every other session and
    every file but its own as they were; and as soon as it has minted a
    namespace, the session of the request holds that namespace, also when
    a later stage fails. *)
Theorem upload_touches_own_state (env : Env) (req : Request) (w : World) :
  (forall ns,
     EUuid ns ∈ emitted w (upload_pdf env req w).2 ->
     sessions (upload_pdf env req w).2 !! session_id req = Some ns)
  /\ (forall sid, sid <> session_id req ->
        sessions (upload_pdf env req w).2 !! sid = sessions w !! sid)
  /\ (forall other,
        (forall f, file req = Some f -> other <> path f) ->
        files (upload_pdf env req w).2 !! other = files w !! other).
Proof.
  set (Q := fun (_ : outcome Response) (w' : World) =>
              (forall ns, EUuid ns ∈ emitted w w' ->
                 sessions w' !! session_id req = Some ns)
              /\ (forall sid, sid <> session_id req ->
                    sessions w' !! sid = sessions w !! sid)
              /\ (forall other,
                    (forall f, file req = Some f -> other <> path f) ->
                    files w' !! other = files w !! other)).
  change (post (upload_pdf env req) Q w).
  unfold upload_pdf.
  (* the handler of a failure, from a world [w1] reached with events [evs] *)
  assert (forall e w1 evs,
            trace w1 = trace w ++ evs -> files w1 = files w ->
            (forall ns, EUuid ns ∈ evs ->
               sessions w1 !! session_id req = Some ns) ->
            (forall sid, sid <> session_id req ->
               sessions w1 !! sid = sessions w !! sid) ->
            post (console_error "Error processing PDF:" e ;;
                  match file req with
                  | Some {| path := String c p |} => unlinkSync env (String c p)
                  | _ => ret tt
                  end ;;
                  ret (respond 500
                         (BUploadFailed "Failed to process PDF" (message e)
                            (if development env then Some (stack e) else None))))
              Q w1) as Hcatch.
  { intros e w1 evs Ht Hf Hown Hothers.
    assert (forall tail o w',
              trace w' = trace w1 ++ tail ->
              (forall ns, EUuid ns ∉ tail) ->
              sessions w' = sessions w1 ->
              (forall other,
                 (forall f, file req = Some f -> other <> path f) ->
                 files w' !! other = files w1 !! other) ->
              Q o w') as Hdone.
    { intros tail o w' Ht' Htail Hs Hfiles. unfold Q.
      rewrite Ht, <- app_assoc in Ht'. rewrite (emitted_app _ _ _ Ht'), Hs.
      split; [|split; [done|]].
      - intros ns Hns. apply elem_of_app in Hns as [Hns|Hns]; [by apply Hown|].
        by destruct (Htail ns).
      - intros other Hother. rewrite Hfiles by done. by rewrite Hf. }
    apply post_bind, post_console_error, post_bind.
    destruct (file req) as [[[|c p] name]|] eqn:Hfile.
    - apply post_ret, post_ret.
      eapply (Hdone [_]); [world; reflexivity| |done|done].
      intros ns Hns. inspect Hns.
    - apply post_unlinkSync; intros; try apply post_ret.
      + eapply (Hdone [_; _]); [world; reflexivity| |done|done].
        intros ns Hns. inspect Hns.
      + eapply (Hdone [_; _]); [world; reflexivity| |done|done].
        intros ns Hns. inspect Hns.
      + eapply (Hdone [_; _]); [world; reflexivity| |done|].
        * intros ns Hns. inspect Hns.
        * intros other Hother. world. apply lookup_delete_ne.
          intros Heq. by apply (Hother _ eq_refl).
    - apply post_ret, post_ret.
      eapply (Hdone [_]); [world; reflexivity| |done|done].
      intros ns Hns. inspect Hns. }
  apply post_try_catch.
  destruct (file req) as [f|] eqn:Hfile.
  - apply post_bind, post_call. intros [rawDocs|e] _.
    + apply post_bind, post_call. intros [docs|e] _.
      * apply post_bind, post_uuidv4, post_bind, post_set_session_namespace,
          post_bind, post_call_unit. intros [e|] _.
        -- eapply Hcatch; [world; reflexivity|world; reflexivity| |].
           ++ intros ns Hns. inspect Hns. injection Hns as ->.
              world. apply lookup_insert_eq.
           ++ intros sid Hsid. world. by apply lookup_insert_ne.
        -- apply post_bind, post_add_batches.
           intros o w1 evs (Hf & Hs & _ & Ht) Hevs _.
           cbn [files sessions uuids_drawn trace record] in Ht, Hf, Hs.
           rewrite <- !app_assoc in Ht. cbn [app] in Ht.
           assert (forall ns tail,
                     (forall n, EUuid n ∉ tail) ->
                     EUuid ns ∈ EPdfLoad (path f) (Returned rawDocs)
                                :: ESplitDocuments rawDocs (Returned docs)
                                :: EUuid (uuid env (uuids_drawn w))
                                :: EFromExistingIndex (index_name env)
                                     (uuid env (uuids_drawn w)) None
                                :: evs ++ tail ->
                     sessions w1 !! session_id req = Some ns) as Hown.
           { intros ns tail Htail Hns. rewrite Hs. inspect Hns.
             - injection Hns as ->. apply lookup_insert_eq.
             - apply elem_of_app in Hns as [Hns|Hns]; [|by destruct (Htail ns)].
               by pose proof (proj1 (Forall_forall _ _) Hevs _ Hns). }
           assert (forall n, EUuid n ∉ [EUnlink (path f) None]) as Hunlink.
           { intros n Hn. inspect Hn. }
           assert (forall sid, sid <> session_id req ->
                     sessions w1 !! sid = sessions w !! sid) as Hothers.
           { intros sid Hsid. rewrite Hs. by apply lookup_insert_ne. }
           destruct o as [[]|e].
           2:{ eapply Hcatch; [exact Ht|done| |done].
               intros ns Hns. eapply (Hown ns []); [|by rewrite app_nil_r].
               intros n Hn. inspect Hn. }
           apply post_bind, post_unlinkSync.
           ++ intros _. eapply Hcatch;
                [world; rewrite Ht, <- app_assoc; reflexivity|done| |done].
              intros ns Hns. world. eapply (Hown ns [_]); [|exact Hns].
              intros n Hn. inspect Hn.
           ++ intros e _ _. eapply Hcatch;
                [world; rewrite Ht, <- app_assoc; reflexivity|done| |done].
              intros ns Hns. world. eapply (Hown ns [_]); [|exact Hns].
              intros n Hn. inspect Hn.
           ++ intros _ _. apply post_ret. unfold Q.
              erewrite emitted_app; [|world; rewrite Ht, <- app_assoc; reflexivity].
              world. split; [|split; [done|]].
              ** intros ns Hns. by eapply (Hown ns [_]); [apply Hunlink|].
              ** intros other Hother. rewrite Hf. apply lookup_delete_ne.
                 intros Heq. by apply (Hother _ eq_refl).
      * eapply Hcatch; [world; reflexivity|done| |done].
        intros ns Hns. inspect Hns.
    + eapply Hcatch; [world; reflexivity|done| |done].
      intros ns Hns. inspect Hns.
  - apply post_ret. unfold Q. rewrite emitted_refl.
    split; [|done]. intros ns Hns. inspect Hns.
Qed.

Lemma upload_touches_own_state_witness :
  sessions (upload_pdf Scenario.disk_fails Scenario.upload_request
              Scenario.fresh).2 !! session_id Scenario.upload_request
  = Some "0".
Proof.
  apply (upload_touches_own_state Scenario.disk_fails Scenario.upload_request
           Scenario.fresh).
  vm_compute. do 2 apply list_elem_of_further. apply list_elem_of_here.
Defined.

(** ** More on [POST /query] *)

Lemma context_entries_length (env : Env) results i w entries w' :
  context_entries env i results w = (Returned entries, w') ->
  length entries = length results.
Proof.
  revert i w entries w'.
  induction results as [|doc rest IH]; intros i w entries w' Hrun;
    cbn [context_entries] in Hrun.
  - by injection Hrun as <- _.
  - unfold bind in Hrun.
    destruct (context_entry env i doc w) as [[entry|e] w1]; [|done].
    destruct (context_entries env (S i) rest w1) as [[rest'|e] w2] eqn:Hrest;
      [|done].
    injection Hrun as <- _. simpl. f_equal. by eapply IH.
Qed.

(** The runs of the query handler, case by case. *)
Lemma query_cases (env : Env) (req : Request) (w : World) :
  later w (query env req w).2 (emitted w (query env req w).2)
  /\ (((query env req w).1
       = Returned (respond 400 (BError "Question is required"))
       /\ emitted w (query env req w).2 = [])
      \/ (exists question results entries completion answer,
            (query env req w).1
            = Returned (respond 200
                          (BAnswer answer
                             (map (fun doc => (pageContent doc, metadata doc))
                                results)))
            /\ emitted w (query env req w).2
               = [EFromExistingIndex (index_name env) query_namespace None;
                  ESimilaritySearch
                    {| vs_index := index_name env;
                       vs_namespace := query_namespace |}
                    question 5 (Returned results);
                  EChatCompletion
                    (chat_request (join (String LF (char LF)) entries) question)
                    (Returned completion)]
            /\ truthy question = true
            /\ length entries = length results
            /\ exists fields,
                 body req = VObj fields
                 /\ fields !! "question" = Some question)
      \/ (exists e evs,
            (query env req w).1
            = Returned (respond 500
                          (BQueryFailed "Failed to process query"
                             (if development env then Some (message e)
                              else None)))
            /\ emitted w (query env req w).2
               = evs ++ [EConsoleError "Error querying:" e])).
Proof.
  set (Q := fun (o : outcome Response) (w' : World) =>
    later w w' (emitted w w')
    /\ ((o = Returned (respond 400 (BError "Question is required"))
         /\ emitted w w' = [])
        \/ (exists question results entries completion answer,
              o = Returned (respond 200
                              (BAnswer answer
                                 (map (fun doc => (pageContent doc, metadata doc))
                                    results)))
              /\ emitted w w'
                 = [EFromExistingIndex (index_name env) query_namespace None;
                    ESimilaritySearch
                      {| vs_index := index_name env;
                         vs_namespace := query_namespace |}
                      question 5 (Returned results);
                    EChatCompletion
                      (chat_request (join (String LF (char LF)) entries) question)
                      (Returned completion)]
              /\ truthy question = true
              /\ length entries = length results
              /\ exists fields,
                   body req = VObj fields
                   /\ fields !! "question" = Some question)
        \/ (exists e evs,
              o = Returned (respond 500
                              (BQueryFailed "Failed to process query"
                                 (if development env then Some (message e)
                                  else None)))
              /\ emitted w w' = evs ++ [EConsoleError "Error querying:" e]))).
  change (post (query env req) Q w).
  (* a failure [e] after the events [evs] *)
  assert (forall e evs w1,
            later w w1 evs ->
            post (console_error "Error querying:" e ;;
                  ret (respond 500
                         (BQueryFailed "Failed to process query"
                            (if development env then Some (message e) else None))))
              Q w1) as Hcatch.
  { intros e evs w1 (Hf & Hs & Hu & Ht).
    apply post_bind, post_console_error, post_ret. unfold Q.
    erewrite emitted_app; [|world; rewrite Ht, <- app_assoc; reflexivity].
    split; [|right; right; by exists e, evs].
    unfold later. world. split; [done|]. split; [done|]. split; [done|].
    by rewrite Ht, <- app_assoc. }
  unfold query.
  apply post_try_catch, post_bind, post_reads_only; [apply reads_only_get|].
  intros [q|e] Hget; [|eapply Hcatch, later_refl].
  destruct (truthy q) eqn:Hq; cbn [negb].
  2:{ apply post_ret. unfold Q. rewrite emitted_refl.
      split; [apply later_refl|by left]. }
  destruct (get_truthy env (body req) "question" q Hget Hq) as [fields Hbody].
  apply post_bind, post_call_unit. intros [e|] _.
  { eapply (Hcatch _ [_]). by repeat split. }
  apply post_bind, post_call. intros [results|e] _.
  2:{ eapply (Hcatch _ [_; _]). repeat split. world. reflexivity. }
  apply post_bind, post_reads_only; [apply reads_only_context_entries|].
  intros [entries|e] Hentries.
  2:{ eapply (Hcatch _ [_; _]). repeat split. world. reflexivity. }
  apply post_bind, post_call. intros [cc|e] _.
  2:{ eapply (Hcatch _ [_; _; _]). repeat split. world. reflexivity. }
  apply post_bind, post_reads_only; [apply reads_only_answer_of|].
  intros [ans|e] _.
  2:{ eapply (Hcatch _ [_; _; _]). repeat split. world. reflexivity. }
  apply post_ret. unfold Q. events.
  split; [repeat split; world; reflexivity|].
  right; left. exists q, results, entries, cc, ans.
  split; [done|]. split; [done|]. split; [done|].
  split; [|by exists fields].
  by eapply (context_entries_length env results 0 w), Hentries.
Qed.

(** X15. The query handler always answers: it never ends with an error of
    its own, and the status of its response is 200, 400 or 500. *)
Theorem query_always_responds (env : Env) (req : Request) (w : World) :
  exists resp,
    (query env req w).1 = Returned resp
    /\ (status resp = 200 \/ status resp = 400 \/ status resp = 500).
Proof.
  destruct (query_cases env req w) as [_ [[-> _]|[Hok|Hfail]]].
  - eexists. split; [done|]. right; left. done.
  - destruct Hok as (q & results & entries & cc & ans & -> & _).
    eexists. split; [done|]. by left.
  - destruct Hfail as (e & evs & -> & _).
    eexists. split; [done|]. right; right. done.
Qed.

(** X16. A query changes nothing in the server: the files, the sessions
    and the identifier generator are as before; it only adds events. *)
Theorem query_keeps_state (env : Env) (req : Request) (w : World) :
  files (query env req w).2 = files w
  /\ sessions (query env req w).2 = sessions w
  /\ uuids_drawn (query env req w).2 = uuids_drawn w
  /\ exists evs, trace (query env req w).2 = trace w ++ evs.
Proof.
  destruct (query_cases env req w) as [(Hf & Hs & Hu & Ht) _].
  split; [done|]. split; [done|]. split; [done|]. by eexists.
Qed.

(** X17. A query answered 200 has made exactly three calls, in this
    order: it opened the store on the namespace written in the handler,
    searched it once, with [k = 5], for the [question] of the request
    body, and asked for one completion whose messages are a system prompt
    and that same question as the user message; the sources of the
    response are the documents the search returned, in the same order. *)
Theorem query_success_run (env : Env) (req : Request) (w : World)
    (answer : value) (sources : list (string * value)) :
  (query env req w).1 = Returned (respond 200 (BAnswer answer sources)) ->
  exists fields question results prompt completion,
    body req = VObj fields
    /\ fields !! "question" = Some question
    /\ emitted w (query env req w).2
       = [EFromExistingIndex (index_name env)
            "6763088c-17a1-433d-9f7f-066974723312" None;
          ESimilaritySearch
            {| vs_index := index_name env;
               vs_namespace := "6763088c-17a1-433d-9f7f-066974723312" |}
            question 5 (Returned results);
          EChatCompletion
            {| messages := [ {| role := "system"; content := VStr prompt |};
                             {| role := "user"; content := question |} ];
               model := "llama-3.3-70b-versatile";
               temperature := S754_finite false 5404319552844595 (-54);
               max_tokens := 1024 |}
            (Returned completion)]
    /\ sources = map (fun doc => (pageContent doc, metadata doc)) results.
Proof.
  intros Hok.
  destruct (query_cases env req w) as [_ [[Hbad _]|[Hrun|Hfail]]].
  - rewrite Hok in Hbad. discriminate.
  - destruct Hrun
      as (q & results & entries & cc & ans & Ho & Hev & _ & _ & fields & Hbody & Hq).
    rewrite Hok in Ho. injection Ho as -> ->.
    exists fields, q, results,
      (SYSTEM_PROMPT (join (String LF (char LF)) entries)), cc.
    split; [done|]. split; [done|]. split; [exact Hev|done].
  - destruct Hfail as (e & evs & Ho & _). rewrite Hok in Ho. discriminate.
Qed.

(** The run of the witness: the question of the body is the one searched
    for and the one sent as the user message. *)
Lemma query_success_run_witness :
  exists results prompt completion,
    emitted Scenario.fresh
      (query Scenario.healthy (Scenario.question_request "What is it about?")
         Scenario.fresh).2
    = [EFromExistingIndex "pdf-chat" "6763088c-17a1-433d-9f7f-066974723312" None;
       ESimilaritySearch
         {| vs_index := "pdf-chat";
            vs_namespace := "6763088c-17a1-433d-9f7f-066974723312" |}
         (VStr "What is it about?") 5 (Returned results);
       EChatCompletion
         {| messages := [ {| role := "system"; content := VStr prompt |};
                          {| role := "user";
                             content := VStr "What is it about?" |} ];
            model := "llama-3.3-70b-versatile";
            temperature := S754_finite false 5404319552844595 (-54);
            max_tokens := 1024 |}
         (Returned completion)].
Proof.
  destruct (query_success_run Scenario.healthy
              (Scenario.question_request "What is it about?") Scenario.fresh
              (VStr "I don't know") [])
    as (fields & question & results & prompt & completion
        & Hbody & Hquestion & Hrun & _).
  - reflexivity.
  - injection Hbody as <-. vm_compute in Hquestion. injection Hquestion as <-.
    by exists results, prompt, completion.
Defined.

(** X18. Outside development mode, a query answered 500 discloses nothing
    of the error: its body is the fixed message without details. *)
Theorem query_failure_discloses_nothing (env : Env) (req : Request) (w : World)
    (resp : Response) :
  development env = false ->
  (query env req w).1 = Returned resp ->
  status resp = 500 ->
  json resp = BQueryFailed "Failed to process query" None.
Proof.
  intros Hdev Hresp Hstatus.
  destruct (query_cases env req w) as [_ [[Hbad _]|[Hrun|Hfail]]].
  - rewrite Hresp in Hbad. injection Hbad as ->. discriminate.
  - destruct Hrun as (q & results & entries & cc & ans & Ho & _).
    rewrite Hresp in Ho. injection Ho as ->. discriminate.
  - destruct Hfail as (e & evs & Ho & _). rewrite Hresp, Hdev in Ho.
    by injection Ho as ->.
Qed.


Lemma query_failure_discloses_nothing_witness :
  json (respond 500 (BQueryFailed "Failed to process query" None))
  = BQueryFailed "Failed to process query" None.
Proof.
  apply (query_failure_discloses_nothing Scenario.healthy Scenario.upload_request
           Scenario.fresh).
  - reflexivity.
  - reflexivity.
  - reflexivity.
Defined.

(** X19. A question that is present but falsy (the empty string, [0],
    [false], [null]) is rejected like a missing one: status 400, and the
    world is left as it was. *)
Theorem query_rejects_falsy_question (env : Env) (req : Request) (w : World)
    (fields : gmap string value) (question : value) :
  body req = VObj fields ->
  fields !! "question" = Some question ->
  truthy question = false ->
  query env req w = (Returned (respond 400 (BError "Question is required")), w).
Proof.
  intros Hbody Hq Hfalsy. unfold query, try_catch, bind, get.
  rewrite Hbody. cbn. rewrite Hq. cbn. by rewrite Hfalsy.
Qed.

Lemma query_rejects_falsy_question_witness :
  query Scenario.healthy (Scenario.question_request EmptyString) Scenario.fresh
  = (Returned (respond 400 (BError "Question is required")), Scenario.fresh).
Proof.
  apply (query_rejects_falsy_question Scenario.healthy
           (Scenario.question_request EmptyString) Scenario.fresh
           {[ "question" := VStr EmptyString ]} (VStr EmptyString)).
  - reflexivity.
  - reflexivity.
  - reflexivity.
Defined.

(** X20. A query whose body is [undefined] or [null] is answered 500, not
    400: reading [question] fails, the error is logged, and no call to
    the store or to the completion service is made. *)
Theorem query_without_body (env : Env) (req : Request) (w : World) :
  nullish (body req) = true ->
  query env req w
  = (Returned (respond 500
                 (BQueryFailed "Failed to process query"
                    (if development env
                     then Some (message (type_error env (body req) "question"))
                     else None))),
     record (EConsoleError "Error querying:"
               (type_error env (body req) "question")) w).
Proof.
  intros Hbody. unfold query, try_catch, bind, get.
  destruct (body req); try discriminate Hbody; reflexivity.
Qed.

Lemma query_without_body_witness :
  (query Scenario.healthy Scenario.upload_request Scenario.fresh).1
  = Returned (respond 500 (BQueryFailed "Failed to process query" None)).
Proof.
  rewrite (query_without_body Scenario.healthy Scenario.upload_request
             Scenario.fresh); reflexivity.
Defined.

(** A result without metadata makes the assembly of the context fail. *)
Lemma context_entries_fails (env : Env) results doc :
  doc ∈ results -> nullish (metadata doc) = true ->
  forall i w, exists e, context_entries env i results w = (Thrown e, w).
Proof.
  intros Hin Hmeta.
  induction results as [|d rest IH]; intros i w; [by apply elem_of_nil in Hin|].
  cbn [context_entries]. unfold bind at 1.
  destruct (reads_only_get env (metadata d) "source") as [r Hr].
  unfold context_entry, bind at 1. rewrite Hr.
  destruct r as [source|e]; [|by eexists].
  cbn [ret]. apply elem_of_cons in Hin as [->|Hin].
  - specialize (Hr w). destruct (metadata d); try discriminate Hmeta;
      discriminate Hr.
  - destruct (IH Hin (S i) w) as [e He]. unfold bind. rewrite He. by eexists.
Qed.

(** X21. When the search returns a document whose metadata is [null] or
    [undefined], the query is answered 500 and no completion is asked
    for: building the context reads [metadata.source] of every result. *)
Theorem query_result_without_metadata (env : Env) (req : Request) (w : World)
    store question k results doc :
  ESimilaritySearch store question k (Returned results)
    ∈ emitted w (query env req w).2 ->
  doc ∈ results ->
  nullish (metadata doc) = true ->
  (exists resp, (query env req w).1 = Returned resp /\ status resp = 500)
  /\ forall request r,
       EChatCompletion request r ∉ emitted w (query env req w).2.
Proof.
  intros Hsearch Hdoc Hmeta. revert store question k Hsearch.
  change (post (query env req)
            (fun o w' => forall store question k,
               ESimilaritySearch store question k (Returned results)
                 ∈ emitted w w' ->
               (exists resp, o = Returned resp /\ status resp = 500)
               /\ forall request r, EChatCompletion request r ∉ emitted w w') w).
  unfold query.
  apply post_try_catch, post_bind, post_reads_only; [apply reads_only_get|].
  intros [q|e] _.
  - destruct (truthy q); cbn [negb].
    + apply post_bind, post_call_unit. intros [e|] _.
      * apply post_bind, post_console_error, post_ret.
        events. intros ??? H. inspect H.
      * apply post_bind, post_call. intros [found|e] _.
        -- apply post_bind, post_reads_only; [apply reads_only_context_entries|].
           intros [entries|e] Hentries.
           ++ apply post_bind, post_call. intros [cc|e] _.
              ** apply post_bind, post_reads_only; [apply reads_only_answer_of|].
                 intros [ans|e] _.
                 --- apply post_ret. events. intros ??? H. inspect H.
                     injection H as _ _ _ <-.
                     destruct (context_entries_fails env results doc Hdoc Hmeta 0 w)
                       as [e He].
                     by rewrite Hentries in He.
                 --- apply post_bind, post_console_error, post_ret.
                     events. intros ??? H. inspect H.
                     injection H as _ _ _ <-.
                     destruct (context_entries_fails env results doc Hdoc Hmeta 0 w)
                       as [e' He].
                     by rewrite Hentries in He.
              ** apply post_bind, post_console_error, post_ret.
                 events. intros ??? H. inspect H.
                 injection H as _ _ _ <-.
                 destruct (context_entries_fails env results doc Hdoc Hmeta 0 w)
                   as [e' He].
                 by rewrite Hentries in He.
           ++ apply post_bind, post_console_error, post_ret.
              events. intros ??? H. split; [by eexists|].
              intros request r Hin. inspect Hin.
        -- apply post_bind, post_console_error, post_ret.
           events. intros ??? H. inspect H.
    + apply post_ret. rewrite emitted_refl. intros ??? H. inspect H.
  - apply post_bind, post_console_error, post_ret.
    events. intros ??? H. inspect H.
Qed.

Lemma query_result_without_metadata_witness :
  (exists resp,
     (query Scenario.finds_orphan (Scenario.question_request "What is it about?")
        Scenario.fresh).1 = Returned resp
     /\ status resp = 500)
  /\ forall request r,
       EChatCompletion request r
         ∉ emitted Scenario.fresh
             (query Scenario.finds_orphan
                (Scenario.question_request "What is it about?")
                Scenario.fresh).2.
Proof.
  apply (query_result_without_metadata Scenario.finds_orphan
           (Scenario.question_request "What is it about?") Scenario.fresh
           {| vs_index := "pdf-chat"; vs_namespace := query_namespace |}
           (VStr "What is it about?") 5 [Scenario.orphan] Scenario.orphan).
  - vm_compute. apply list_elem_of_further, list_elem_of_here.
  - apply list_elem_of_here.
  - reflexivity.
Defined.

(** X22. Reading the answer of a completion: when [choices] is an array,
    the read never fails, whatever its first element is, and it gives
    [undefined] for the empty array; when the completion is an object
    without a [choices] field, the read fails with the [TypeError] of
    indexing [undefined]. *)
Theorem answer_of_choices (env : Env) (fields : gmap string value) (w : World) :
  (forall items,
     fields !! "choices" = Some (VArr items) ->
     (exists answer, (answer_of env (VObj fields) w).1 = Returned answer)
     /\ (items = [] -> (answer_of env (VObj fields) w).1 = Returned VUndefined))
  /\ (fields !! "choices" = None ->
      (answer_of env (VObj fields) w).1 = Thrown (type_error env VUndefined "0")).
Proof.
  unfold answer_of, bind, get, at0. split.
  - intros items Hchoices. cbn. rewrite Hchoices. cbn. split.
    + destruct items as [|first rest]; cbn; [by eexists|].
      destruct first as [| | | | | |message]; cbn; try by eexists.
      destruct (message !! "message") as [[| | | | | |content]|]; cbn;
        by eexists.
    + by intros ->.
  - intros Hnone. cbn. by rewrite Hnone.
Qed.

Lemma answer_of_choices_witness :
  exists answer,
    (answer_of Scenario.healthy (Scenario.completion "I don't know")
       Scenario.fresh).1
    = Returned answer.
Proof.
  eapply (proj1 (answer_of_choices Scenario.healthy
                   {[ "choices" :=
                        VArr [VObj {[ "message" :=
                                        VObj {[ "content" := VStr "I don't know" ]} ]}] ]}
                   Scenario.fresh)).
  reflexivity.
Defined.

End ServerMore.
